(** * keepachangelog_validator.py: the Keep-a-Changelog validator

    A shallow embedding of [src/keepachangelog_validator.py] and the
    properties its specification states about it.

    Text is a list of code points below 256, one [ascii] per code point.
    On that range Python's [\d] is exactly ['0'..'9'] and [str.strip]
    removes the twelve code points listed in [Py.is_space]. Module [Wide]
    has the matcher on text of any code points, where [\d] accepts the
    decimal digits of every script; on text below 256 it runs as [Re]
    does ([WideFacts]).

    The program leans on four library services, modelled here as far as
    the program uses them:
    - [re] (module [Re]): a backtracking matcher for the pattern syntax
      the patterns of the program are written in, with [re.match],
      [re.search] and [re.findall] on top of it;
    - [str] methods (module [Py]): [strip], [split], [startswith], [in],
      [join] and the comparison of strings;
    - [datetime.datetime.strptime] with the format ["%Y-%m-%d"];
    - the files (module [Os]): [os.path.join] of [posixpath], [os.walk]
      over a tree of directories, [open] and [read] as a function of the
      path, and [str.lower] for the file names.

    [print] is kept as the list of the calls made, and an exception as an
    outcome of its own beside the returned value (type [io]); [main] adds
    [exit] and the failure of [open] (type [proc]). [argparse] is kept as
    what [parse_args] does: it returns the namespace or leaves the script
    itself ([script]).

    The file goes: the model of the libraries, the program function by
    function under the names of the source, the terms the specification
    is phrased in, then the facts ([ReFacts] about the matcher,
    [PatternFacts], [GrammarFacts] and [CaptureFacts] about the patterns
    of the program, [ProgramFacts] about its functions), the properties of
    the specification, C1 to C10, and last further facts and properties of
    the scan, the extractor, the validator, [find_changelog_file] and
    [main]. *)

From Stdlib Require Import String.
From Stdlib Require Import List Ascii Bool Arith Lia NArith.
Import ListNotations.
Open Scope list_scope.

Set Implicit Arguments.

(** ** Text *)

Definition str := list ascii.

(** A string literal of the source. *)
Definition lit (s : string) : str := list_ascii_of_string s.
Arguments lit s%_string : simpl never.

Definition newline : ascii := "010"%char.

Fixpoint str_eqb (a b : str) : bool :=
  match a, b with
  | [], [] => true
  | x :: a', y :: b' => Ascii.eqb x y && str_eqb a' b'
  | _, _ => false
  end.

Definition code (c : ascii) : nat := nat_of_ascii c.

Definition in_range (lo hi c : ascii) : bool :=
  Nat.leb (code lo) (code c) && Nat.leb (code c) (code hi).

Definition is_digit (c : ascii) : bool := in_range "0"%char "9"%char c.

(** ** The regular expressions of [re] *)

Module Re.

(** What one pattern position accepts. *)
Inductive cclass : Type :=
| CChar (c : ascii)            (* a literal character *)
| CDigit                       (* \d *)
| CDot                         (* .  without DOTALL: anything but a newline *)
| CAll                         (* .  under DOTALL *)
| CRange (lo hi : ascii)       (* a-z inside a bracket *)
| CUnion (a b : cclass).       (* [ab] *)

Fixpoint accepts (k : cclass) (c : ascii) : bool :=
  match k with
  | CChar x => Ascii.eqb x c
  | CDigit => is_digit c
  | CDot => negb (Ascii.eqb c newline)
  | CAll => true
  | CRange lo hi => in_range lo hi c
  | CUnion a b => accepts a c || accepts b c
  end.

Inductive regex : Type :=
| Empty                              (* the empty pattern *)
| Class (k : cclass)                 (* one character *)
| Cat (r1 r2 : regex)                (* r1r2 *)
| Or (r1 r2 : regex)                 (* r1|r2, left alternative first *)
| Star (greedy : bool) (r : regex)   (* r* and r*? *)
| Group (n : nat) (r : regex)        (* the n-th capturing group *)
| Ahead (r : regex)                  (* (?=r) *)
| EndZ                               (* \Z *)
| Dollar.                            (* $ without MULTILINE *)

(** Derived forms. *)
Definition Plus (greedy : bool) (r : regex) : regex := Cat r (Star greedy r).
Definition Opt (r : regex) : regex := Or r Empty.

Fixpoint Times (n : nat) (r : regex) : regex :=
  match n with
  | O => Empty
  | S O => r
  | S m => Cat r (Times m r)
  end.

Fixpoint Text (s : str) : regex :=
  match s with
  | [] => Empty
  | [c] => Class (CChar c)
  | c :: s' => Cat (Class (CChar c)) (Text s')
  end.

(** Captured groups, the latest binding first. *)
Definition captures := list (nat * str).

Fixpoint group (n : nat) (cs : captures) : str :=
  match cs with
  | [] => []
  | (m, w) :: cs' => if Nat.eqb n m then w else group n cs'
  end.

(** A matcher state: the text still to read and the groups bound so far. *)
Record state : Type := St { rest : str; caps : captures }.

Definition advances (st st' : state) : bool :=
  length (rest st') <? length (rest st).

(** The text read between two states of one run. *)
Definition consumed (st st' : state) : str :=
  firstn (length (rest st) - length (rest st')) (rest st).

(** Repetition. [step] is the matcher of the repeated pattern; the results
    come in the order in which backtracking tries them: a greedy star tries
    one more round first, a lazy one tries to stop first. A round that
    reads nothing is not repeated. Each round shortens the text, so
    [length (rest st)] rounds of fuel are never used up. *)
Fixpoint iter (step : state -> list state) (greedy : bool) (fuel : nat)
    (st : state) : list state :=
  match fuel with
  | O => [st]
  | S f =>
      let deeper := flat_map (iter step greedy f)
                             (filter (advances st) (step st)) in
      if greedy then deeper ++ [st] else st :: deeper
  end.

(** [exec r st]: every way [r] matches at [st], in backtracking order. The
    head of the list is the match [re] reports. *)
Fixpoint exec (r : regex) (st : state) : list state :=
  match r with
  | Empty => [st]
  | Class k =>
      match rest st with
      | c :: s' => if accepts k c then [St s' (caps st)] else []
      | [] => []
      end
  | Cat r1 r2 => flat_map (exec r2) (exec r1 st)
  | Or r1 r2 => exec r1 st ++ exec r2 st
  | Star g r1 => iter (exec r1) g (length (rest st)) st
  | Group n r1 =>
      map (fun st' => St (rest st') ((n, consumed st st') :: caps st'))
          (exec r1 st)
  | Ahead r1 =>
      match exec r1 st with
      | st' :: _ => [St (rest st) (caps st')]
      | [] => []
      end
  | EndZ => match rest st with [] => [st] | _ :: _ => [] end
  | Dollar =>
      match rest st with
      | [] => [st]
      | [c] => if Ascii.eqb c newline then [st] else []
      | _ :: _ :: _ => []
      end
  end.

(** [re.match(r, s)]: a match at the start of [s], or [None]. *)
Definition rmatch (r : regex) (s : str) : option state :=
  match exec r (St s []) with
  | st :: _ => Some st
  | [] => None
  end.

Definition matches (r : regex) (s : str) : bool :=
  match rmatch r s with Some _ => true | None => false end.

(** [re.search(r, s)] as a truth value: a match at some position. *)
Fixpoint search (r : regex) (s : str) : bool :=
  matches r s ||
  match s with
  | [] => false
  | _ :: s' => search r s'
  end.

(** [re.findall(r, s)]: the groups of the successive matches, scanning from
    left to right and resuming where the last match ended. [skip] counts
    the characters still covered by the last match. (A match that reads
    nothing resumes one character on; no pattern of the program has such
    a match.) *)
Fixpoint findall_from (r : regex) (skip : nat) (s : str) : list captures :=
  match skip with
  | S k =>
      match s with
      | [] => []
      | _ :: s' => findall_from r k s'
      end
  | O =>
      match rmatch r s with
      | Some st =>
          caps st ::
          match s with
          | [] => []
          | _ :: s' => findall_from r (length s - length (rest st) - 1) s'
          end
      | None =>
          match s with
          | [] => []
          | _ :: s' => findall_from r 0 s'
          end
      end
  end.

(** With two groups in the pattern [findall] returns pairs. *)
Definition findall2 (r : regex) (s : str) : list (str * str) :=
  map (fun cs => (group 1 cs, group 2 cs)) (findall_from r 0 s).

End Re.

(** ** The [str] methods the program calls *)

Module Py.

(** What [str.strip] removes, among the code points below 256. *)
Definition is_space (c : ascii) : bool :=
  in_range "009"%char "013"%char c || in_range "028"%char "032"%char c ||
  Ascii.eqb c "133"%char || Ascii.eqb c "160"%char.

Fixpoint lstrip (s : str) : str :=
  match s with
  | c :: s' => if is_space c then lstrip s' else s
  | [] => []
  end.

Definition rstrip (s : str) : str := rev (lstrip (rev s)).

Definition strip (s : str) : str := rstrip (lstrip s).

(** [s.startswith(p)] *)
Fixpoint startswith (p s : str) : bool :=
  match p, s with
  | [], _ => true
  | x :: p', y :: s' => Ascii.eqb x y && startswith p' s'
  | _ :: _, [] => false
  end.

(** [p in s] for two strings *)
Fixpoint contains (p s : str) : bool :=
  startswith p s ||
  match s with
  | [] => false
  | _ :: s' => contains p s'
  end.

(** [x in l] for a string and a list of strings *)
Definition mem (x : str) (l : list str) : bool := existsb (str_eqb x) l.

(** [s.split(sep)] for a separator that is not empty: the pieces between
    the successive occurrences of [sep], found from left to right. [skip]
    counts the characters of the occurrence being stepped over. *)
Fixpoint split_from (sep : str) (skip : nat) (s : str) : list str :=
  match s with
  | [] => [[]]
  | c :: s' =>
      match skip with
      | S k => split_from sep k s'
      | O =>
          if startswith sep s
          then [] :: split_from sep (length sep - 1) s'
          else
            match split_from sep 0 s' with
            | piece :: pieces => (c :: piece) :: pieces
            | [] => [[c]]
            end
      end
  end.

Definition split (sep s : str) : list str := split_from sep 0 s.

(** [sep.join(l)] *)
Fixpoint join (sep : str) (l : list str) : str :=
  match l with
  | [] => []
  | [x] => x
  | x :: l' => x ++ sep ++ join sep l'
  end.

(** [a < b] on strings: code point by code point. *)
Fixpoint lt (a b : str) : bool :=
  match a, b with
  | _, [] => false
  | [], _ :: _ => true
  | x :: a', y :: b' =>
      if Nat.ltb (code x) (code y) then true
      else if Nat.ltb (code y) (code x) then false
      else lt a' b'
  end.

(** [a >= b] *)
Definition ge (a b : str) : bool := negb (lt a b).

End Py.

(** ** Values, printing and exceptions *)

(** The values that end up in the dictionaries the program builds and in
    the arguments of its [print] calls. *)
#[local] Unset Elimination Schemes.
Inductive pyval : Type :=
| PStr (s : str)
| PList (l : list pyval)
| PDict (d : list (str * pyval))
| PDateTime (y m d : nat).
#[local] Set Elimination Schemes.

(** A dictionary with string keys. *)
Definition dict := list (str * pyval).

Fixpoint lookup (k : str) (d : dict) : option pyval :=
  match d with
  | [] => None
  | (k', v) :: d' => if str_eqb k k' then Some v else lookup k d'
  end.

Inductive exn : Type := ValueError | KeyError.

Inductive outcome (A : Type) : Type :=
| Return (a : A)
| Raise (e : exn).

Arguments Return {A} a.
Arguments Raise {A} e.

(** A computation that prints and may raise: the [print] calls made, each
    with its arguments, and how the computation ended. *)
Definition io (A : Type) : Type := (list (list pyval) * outcome A)%type.

Definition ret {A} (a : A) : io A := ([], Return a).

Definition raise {A} (e : exn) : io A := ([], Raise e).

Definition print (args : list pyval) : io unit := ([args], Return tt).

Definition bind {A B} (m : io A) (f : A -> io B) : io B :=
  match m with
  | (out, Return a) => let (out', r) := f a in (out ++ out', r)
  | (out, Raise e) => (out, Raise e)
  end.

Notation "x <- m ;; k" := (bind m (fun x => k))
  (at level 61, m at next level, right associativity).
Notation "m ;; k" := (bind m (fun _ => k))
  (at level 61, right associativity).

Definition printed {A} (m : io A) : list (list pyval) := fst m.
Definition result {A} (m : io A) : outcome A := snd m.

(** [d[k]] *)
Definition getitem (d : dict) (k : str) : io pyval :=
  match lookup k d with
  | Some v => ret v
  | None => raise KeyError
  end.

(** [v in l] for any value and a list of strings: only a string can be
    equal to a member. *)
Definition pyval_in (v : pyval) (l : list str) : bool :=
  match v with
  | PStr s => Py.mem s l
  | _ => false
  end.

(** ** [datetime.datetime.strptime(s, "%Y-%m-%d")] *)

Definition digit_val (c : ascii) : nat := code c - 48.

Definition is_leap (y : nat) : bool :=
  (Nat.eqb (y mod 4) 0 && negb (Nat.eqb (y mod 100) 0)) || Nat.eqb (y mod 400) 0.

Definition days_in_month (y m : nat) : nat :=
  match m with
  | 2 => if is_leap y then 29 else 28
  | 4 | 6 | 9 | 11 => 30
  | _ => 31
  end.

(** A point in time at midnight, as [strptime] builds it from a date. *)
Record datetime : Type := DateTime { year : nat; month : nat; day : nat }.

(** The fields written in a string of four, two and two digits. *)
Definition date_fields (s : str) : option datetime :=
  match s with
  | [y1; y2; y3; y4; h1; m1; m2; h2; d1; d2] =>
      if forallb is_digit [y1; y2; y3; y4; m1; m2; d1; d2]
         && Ascii.eqb h1 "-"%char && Ascii.eqb h2 "-"%char
      then Some (DateTime
                   (1000 * digit_val y1 + 100 * digit_val y2
                    + 10 * digit_val y3 + digit_val y4)
                   (10 * digit_val m1 + digit_val m2)
                   (10 * digit_val d1 + digit_val d2))
      else None
  | _ => None
  end.

(** A date of the calendar: [strptime] and the [datetime] constructor
    reject year 0, months outside 1..12 and days the month does not have. *)
Definition calendar_ok (t : datetime) : bool :=
  Nat.leb 1 (year t) && Nat.leb 1 (month t) && Nat.leb (month t) 12 &&
  Nat.leb 1 (day t) && Nat.leb (day t) (days_in_month (year t) (month t)).

(** [strptime] on the strings the program passes to it: the second group
    of a heading pattern, four, two and two digits. It raises [ValueError]
    unless the digits name a date of the calendar. *)
Definition strptime (s : str) : io datetime :=
  match date_fields s with
  | Some t => if calendar_ok t then ret t else raise ValueError
  | None => raise ValueError
  end.

(** [a > b] on two [datetime] values *)
Definition datetime_gt (a b : datetime) : bool :=
  Nat.ltb (year b) (year a) ||
  (Nat.eqb (year a) (year b) &&
   (Nat.ltb (month b) (month a) ||
    (Nat.eqb (month a) (month b) && Nat.ltb (day b) (day a)))).

Definition PDate (t : datetime) : pyval := PDateTime (year t) (month t) (day t).

(** ** The patterns of the program *)

Import Re.

Definition chr (c : ascii) : regex := Class (CChar c).
Definition digit : regex := Class CDigit.

(** A sequence of patterns written side by side. *)
Fixpoint Seq (rs : list regex) : regex :=
  match rs with
  | [] => Empty
  | [r] => r
  | r :: rs' => Cat r (Seq rs')
  end.

(** [0|[1-9]\d*] *)
Definition numeric : regex :=
  Or (chr "0") (Cat (Class (CRange "1" "9")) (Star true digit)).

(** [[a-zA-Z-]] *)
Definition letter_or_hyphen : cclass :=
  CUnion (CRange "a" "z") (CUnion (CRange "A" "Z") (CChar "-")).

(** [[0-9a-zA-Z-]] *)
Definition ident_char : cclass :=
  CUnion (CRange "0" "9") letter_or_hyphen.

(** [0|[1-9]\d*|\d*[a-zA-Z-][0-9a-zA-Z-]*] *)
Definition prerelease_ident : regex :=
  Or (chr "0")
     (Or (Cat (Class (CRange "1" "9")) (Star true digit))
         (Seq [Star true digit; Class letter_or_hyphen;
               Star true (Class ident_char)])).

(** [[0-9a-zA-Z-]+] *)
Definition build_ident : regex := Plus true (Class ident_char).

(** [KACLValidator.semver_regex] *)
Definition semver_regex : regex :=
  Seq [Group 1 numeric; chr "."; Group 2 numeric; chr "."; Group 3 numeric;
       Opt (Cat (chr "-")
                (Group 4 (Cat prerelease_ident
                              (Star true (Cat (chr ".") prerelease_ident)))));
       Opt (Cat (chr "+")
                (Group 5 (Cat build_ident
                              (Star true (Cat (chr ".") build_ident)))))].

(** [\d{4}-\d{2}-\d{2}] *)
Definition date_regex : regex :=
  Seq [Times 4 digit; chr "-"; Times 2 digit; chr "-"; Times 2 digit].

(** [\d+\.\d+\.\d+] *)
Definition three_numbers : regex :=
  Seq [Plus true digit; chr "."; Plus true digit; chr "."; Plus true digit].

(** [## \[(.*?)\] - (\d{4}-\d{2}-\d{2})], the heading pattern of
    [parse_changelog] *)
Definition release_regex : regex :=
  Seq [Text (lit "## ["); Group 1 (Star false (Class CDot));
       Text (lit "] - "); Group 2 date_regex].

(** [### (.*?)\n(.*?)(?=\n###|\Z)] under [re.DOTALL] *)
Definition section_regex : regex :=
  Seq [Text (lit "### "); Group 1 (Star false (Class CAll)); chr newline;
       Group 2 (Star false (Class CAll));
       Ahead (Or (Cat (chr newline) (Text (lit "###"))) EndZ)].

(** [# Changelog] *)
Definition title_regex : regex := Text (lit "# Changelog").

(** [## \[Unreleased\]] *)
Definition unreleased_regex : regex := Text (lit "## [Unreleased]").

(** [## \[(\d+\.\d+\.\d+)\] - (\d{4}-\d{2}-\d{2})], the pattern of the
    ordering check *)
Definition dated_regex : regex :=
  Seq [Text (lit "## ["); Group 1 three_numbers;
       Text (lit "] - "); Group 2 date_regex].

(** The same followed by [$], the pattern of the heading check *)
Definition heading_regex : regex := Cat dated_regex Dollar.

(** ** [class Version] *)

Record Version : Type := mkVersion {
  _version : str;
  _date : str;
  _sections : list dict
}.

Definition version (v : Version) : str := _version v.
Definition date (v : Version) : str := _date v.
Definition sections (v : Version) : list dict := _sections v.
Definition has_link_reference (v : Version) : bool := true.

(** ** [class KACLValidator] *)

Definition verify_semver (version : str) : bool :=
  if negb (matches semver_regex version) then false else true.

Definition verify_date (date : str) : bool :=
  if (match date with [] => true | _ :: _ => false end)
     || Nat.ltb (length date) 1
  then false
  else if negb (matches date_regex date) then false
  else true.

Fixpoint verify_sections (sections : list dict) (allowed_sections : list str)
    : io bool :=
  match sections with
  | [] => ret true
  | section :: sections' =>
      label <- getitem section (lit "section") ;;
      if negb (pyval_in label allowed_sections)
      then
        label' <- getitem section (lit "section") ;;
        print [PStr (lit "Section issue:"); label'] ;;
        ret false
      else verify_sections sections' allowed_sections
  end.

Definition verify_links (has_link_reference : bool) : bool := true.

Definition semver_message (v : str) : str :=
  lit "Version " ++ v ++ lit " is not a valid semantic version.".

Definition date_message (v : str) : str :=
  lit "Version " ++ v ++ lit " has an invalid release date format.".

Definition section_message (v : str) (allowed_sections : list str) : str :=
  lit "Version " ++ v ++ lit " contains an invalid section. "
  ++ lit "Valid sections are: " ++ Py.join (lit ", ") allowed_sections.

Definition link_message (v : str) : str :=
  lit "Version " ++ v
  ++ lit " is linked, but no link reference found in the changelog.".

Definition verify_version (v : Version) (allowed_sections : list str)
    : io (list str) :=
  let errors := [] in
  let errors :=
    if negb (verify_semver (version v))
    then errors ++ [semver_message (version v)] else errors in
  let errors :=
    if negb (verify_date (date v))
    then errors ++ [date_message (version v)] else errors in
  ok <- verify_sections (sections v) allowed_sections ;;
  let errors :=
    if negb ok
    then errors ++ [section_message (version v) allowed_sections]
    else errors in
  let errors :=
    if negb (verify_links (has_link_reference v))
    then errors ++ [link_message (version v)] else errors in
  ret errors.

(** ** [parse_changelog] *)

Definition yellow : str := ["027"%char; "["%char; "9"%char; "3"%char; "m"%char].
Definition plain : str := ["027"%char; "["%char; "0"%char; "m"%char].

(** The inner loop over the sections found. [None] stands for the
    [return []] that leaves the whole function. *)
Fixpoint parse_sections (allowed_sections : list str)
    (sections : list (str * str)) (parsed_sections : list dict)
    : io (option (list dict)) :=
  match sections with
  | [] => ret (Some parsed_sections)
  | (title, changes) :: sections' =>
      if Py.mem (Py.strip title) allowed_sections
      then
        parse_sections allowed_sections sections'
          (parsed_sections ++
           [[(lit "section", PStr (Py.strip title));
             (lit "changes",
              PList (map PStr (Py.split (newline :: lit "- ")
                                        (Py.strip changes))))]])
      else
        print [PStr yellow; PStr (lit "Not allowed section:"); PStr title;
               PStr plain] ;;
        ret None
  end.

(** The outer loop over the headings found. *)
Fixpoint parse_versions (changelog_content : str) (allowed_sections : list str)
    (versions : list (str * str)) (changelog : list dict) : io (list dict) :=
  match versions with
  | [] => ret changelog
  | (version, date) :: versions' =>
      let sections := findall2 section_regex changelog_content in
      r <- parse_sections allowed_sections sections [] ;;
      match r with
      | None => ret []
      | Some parsed_sections =>
          parse_versions changelog_content allowed_sections versions'
            (changelog ++
             [[(lit "version", PStr version); (lit "date", PStr date);
               (lit "sections", PList (map PDict parsed_sections))]])
      end
  end.

Definition parse_changelog (changelog_content : str)
    (allowed_sections : list str) : io (list dict) :=
  let changelog := [] in
  let versions := findall2 release_regex changelog_content in
  parse_versions changelog_content allowed_sections versions changelog.

(** ** [verify_changelog_format] *)

(** The test that selects the lines the heading check looks at. *)
Definition opens_release (line : str) : bool :=
  Py.startswith (lit "##") line
  && negb (Py.contains (lit "[Unreleased]") line)
  && negb (Py.contains (lit "###") line).

(** The loop over the lines; [false] stands for the [return False]. *)
Fixpoint check_lines (content_lines : list str) : io bool :=
  match content_lines with
  | [] => ret true
  | line :: lines' =>
      if opens_release line
      then
        if negb (matches heading_regex (Py.strip line))
        then
          print [PStr yellow; PStr (lit "Format not allowed:"); PStr line;
                 PStr plain] ;;
          ret false
        else check_lines lines'
      else check_lines lines'
  end.

(** One round of the ordering loop, for the index [i]; [false] stands for
    the [return False]. *)
Definition check_pair (matches : list (str * str)) (i : nat) : io bool :=
  let version_current := fst (nth i matches ([], [])) in
  let version_previous := fst (nth (i - 1) matches ([], [])) in
  date_current <- strptime (snd (nth i matches ([], []))) ;;
  date_previous <- strptime (snd (nth (i - 1) matches ([], []))) ;;
  if Py.ge version_current version_previous
  then
    print [PStr (lit "Versions are not in descending order. v1:");
           PStr version_current; PStr (lit "v2:"); PStr version_previous] ;;
    ret false
  else if datetime_gt date_current date_previous
  then
    print [PStr (lit "Dates are not in chronological order. t1:");
           PDate date_current; PStr (lit "t2:"); PDate date_previous] ;;
    ret false
  else ret true.

(** The loop [for i in range(1, len(matches))], over the list of indices. *)
Fixpoint check_order (matches : list (str * str)) (indices : list nat)
    : io bool :=
  match indices with
  | [] => ret true
  | i :: indices' =>
      ok <- check_pair matches i ;;
      if ok then check_order matches indices' else ret false
  end.

Definition verify_changelog_format (changelog_content : str) : io bool :=
  if negb (search title_regex changelog_content)
  then print [PStr (lit "No 'Changelog' header found.")] ;; ret false
  else if negb (search unreleased_regex changelog_content)
  then
    print [PStr (lit "'Unreleased' section is missing from the Changelog.")] ;;
    ret false
  else
    let content_lines := Py.split [newline] changelog_content in
    ok <- check_lines content_lines ;;
    if negb ok then ret false
    else
      let matches := findall2 dated_regex changelog_content in
      if Nat.ltb (length matches) 2
      then
        print [PStr (lit "Versions need to be defined with a release date in the following format 'YYYY-MM-DD'")] ;;
        ret false
      else check_order matches (seq 1 (length matches - 1)).

(** ** What a pattern says, read as a relation

    [Span r s s']: the pattern [r] can read [s] down to its suffix [s'].
    This is the reading of a pattern by its syntax alone, with no order
    among the alternatives and no backtracking; [exec] is compared with
    it below. *)

Inductive Span : regex -> str -> str -> Prop :=
| SpEmpty s : Span Empty s s
| SpClass k c s : accepts k c = true -> Span (Class k) (c :: s) s
| SpCat r1 r2 s s1 s2 :
    Span r1 s s1 -> Span r2 s1 s2 -> Span (Cat r1 r2) s s2
| SpOrL r1 r2 s s' : Span r1 s s' -> Span (Or r1 r2) s s'
| SpOrR r1 r2 s s' : Span r2 s s' -> Span (Or r1 r2) s s'
| SpStop g r s : Span (Star g r) s s
| SpRound g r s s1 s2 :
    Span r s s1 -> length s1 < length s -> Span (Star g r) s1 s2 ->
    Span (Star g r) s s2
| SpGroup n r s s' : Span r s s' -> Span (Group n r) s s'
| SpAhead r s s' : Span r s s' -> Span (Ahead r) s s
| SpEndZ : Span EndZ [] []
| SpDollarEnd : Span Dollar [] []
| SpDollarLine : Span Dollar [newline] [newline].

(** A pattern without capturing groups. *)
Fixpoint groupless (r : regex) : bool :=
  match r with
  | Empty | Class _ | EndZ | Dollar => true
  | Cat r1 r2 | Or r1 r2 => groupless r1 && groupless r2
  | Star _ r1 | Ahead r1 => groupless r1
  | Group _ _ => false
  end.

(** ** The specification's own terms *)

(** The allow-list of section labels ([main] passes it in). *)
Definition allowed_labels : list str :=
  [lit "Added"; lit "Changed"; lit "Fixed"; lit "Deprecated"; lit "Removed"].

(** The semantic-version grammar in the specification's words: three
    dot-separated non-negative integers with no leading zeros except the
    value 0 itself, then optionally a hyphen and dot-separated pre-release
    identifiers, then optionally a plus and dot-separated build
    identifiers. *)
Definition is_number (w : str) : bool :=
  match w with
  | [] => false
  | [c] => is_digit c
  | c :: ds => in_range "1" "9" c && forallb is_digit ds
  end.

Definition is_ident_char (c : ascii) : bool :=
  is_digit c || in_range "a" "z" c || in_range "A" "Z" c || Ascii.eqb c "-".

(** A pre-release identifier: a number without leading zeros, or
    identifier characters one of which is not a digit. *)
Definition is_prerelease_ident (w : str) : bool :=
  is_number w ||
  (forallb is_ident_char w && existsb (fun c => negb (is_digit c)) w).

(** A build identifier: one or more identifier characters. *)
Definition is_build_ident (w : str) : bool :=
  match w with
  | [] => false
  | _ :: _ => forallb is_ident_char w
  end.

(** Identifiers each behind a dot. *)
Definition dotted (ids : list str) : str :=
  concat (map (fun w => "."%char :: w) ids).

(** An optional part: nothing, or the mark followed by one or more
    identifiers joined by dots. *)
Inductive optional_part (mark : ascii) (ident : str -> bool) : str -> Prop :=
| PartAbsent : optional_part mark ident []
| PartPresent (ids : list str) :
    ids <> [] -> Forall (fun w => ident w = true) ids ->
    optional_part mark ident (mark :: Py.join ["."%char] ids).

Inductive semver_word : str -> Prop :=
| SemverWord (major minor patch pre build : str) :
    is_number major = true -> is_number minor = true ->
    is_number patch = true ->
    optional_part "-" is_prerelease_ident pre ->
    optional_part "+" is_build_ident build ->
    semver_word (major ++ "."%char :: minor ++ "."%char :: patch
                 ++ pre ++ build).

(** The digit shape [\d{4}-\d{2}-\d{2}] spelled out. *)
Definition date_shape (w : str) : Prop :=
  exists y1 y2 y3 y4 m1 m2 d1 d2,
    w = [y1; y2; y3; y4; "-"%char; m1; m2; "-"%char; d1; d2] /\
    Forall (fun c => is_digit c = true) [y1; y2; y3; y4; m1; m2; d1; d2].

(** The sections the scan of one whole document yields, as
    [parse_changelog] turns them into dictionaries. *)
Definition section_dict (found : str * str) : dict :=
  [(lit "section", PStr (Py.strip (fst found)));
   (lit "changes",
    PList (map PStr (Py.split (newline :: lit "- ")
                              (Py.strip (snd found)))))].

Definition document_sections (content : str) : list dict :=
  map section_dict (findall2 section_regex content).

(** Every section of the list carries a label in the allow-list. *)
Definition labels_allowed (sections : list dict) (allowed : list str) : bool :=
  forallb (fun section =>
             match lookup (lit "section") section with
             | Some label => pyval_in label allowed
             | None => false
             end) sections.

(** Every section of the list has its ['section'] key. *)
Definition keyed (sections : list dict) : Prop :=
  Forall (fun section => lookup (lit "section") section <> None) sections.

(** The messages [verify_version] has to return: one per failed check, in
    the order of the checks. *)
Definition expected_messages (v : Version) (allowed : list str) : list str :=
  (if verify_semver (version v) then [] else [semver_message (version v)])
  ++ (if verify_date (date v) then [] else [date_message (version v)])
  ++ (if labels_allowed (sections v) allowed then []
      else [section_message (version v) allowed]).

(** The dated release headings of a document, in document order: version
    and date. *)
Definition dated_releases (content : str) : list (str * str) :=
  findall2 dated_regex content.

(** The checks of [verify_changelog_format] that come before the ordering
    check all pass. *)
Definition earlier_checks_pass (content : str) : Prop :=
  search title_regex content = true /\
  search unreleased_regex content = true /\
  result (check_lines (Py.split [newline] content)) = Return true /\
  2 <= length (dated_releases content).

(** The date a heading carries is a date of the calendar. *)
Definition calendar_date (d : str) : bool :=
  match date_fields d with
  | Some t => calendar_ok t
  | None => false
  end.

(** [d1] is strictly later than [d2], reading the digits of both. *)
Definition later (d1 d2 : str) : bool :=
  match date_fields d1, date_fields d2 with
  | Some t1, Some t2 => datetime_gt t1 t2
  | _, _ => false
  end.

(** The ordering rule for a release and the one listed just below it. *)
Definition in_order (previous current : str * str) : bool :=
  Py.lt (fst current) (fst previous)
  && negb (later (snd current) (snd previous)).

Fixpoint all_adjacent (A : Type) (p : A -> A -> bool) (l : list A) : bool :=
  match l with
  | a :: (b :: _) as l' => p a b && all_adjacent p l'
  | _ => true
  end.

(** A release record carries the sections of the whole document. *)
Definition whole_document (content : str) (release : dict) : Prop :=
  lookup (lit "sections") release =
  Some (PList (map PDict (document_sections content))).

(** ** Documents and releases used as examples *)

(** A text from its lines, joined by newlines. *)
Definition text (lines : list string) : str :=
  Py.join [newline] (map lit lines).

(** The round-trip example of the specification: two releases in order. *)
Definition well_ordered_document : str :=
  text ["# Changelog"; ""; "## [Unreleased]"; "";
        "## [2.0.0] - 2024-01-01"; "### Added"; "- first entry"; "";
        "## [1.0.0] - 2023-01-01"; "### Fixed"; "- second entry"; ""]%string.

(** The same with the dates exchanged: the lower release is the later. *)
Definition dates_exchanged_document : str :=
  text ["# Changelog"; ""; "## [Unreleased]"; "";
        "## [2.0.0] - 2023-01-01"; "### Added"; "- first entry"; "";
        "## [1.0.0] - 2024-01-01"; "### Fixed"; "- second entry"; ""]%string.

(** A heading dated in month 13. *)
Definition month_13_document : str :=
  text ["# Changelog"; "## [Unreleased]"; "## [2.0.0] - 2024-13-01";
        "## [1.0.0] - 2023-01-01"; ""]%string.

(** A heading dated 30 February, below a later release. *)
Definition february_30_document : str :=
  text ["# Changelog"; "## [Unreleased]"; "## [2.0.0] - 2024-03-01";
        "## [1.0.0] - 2024-02-30"; ""]%string.

(** A heading dated 30 February, with the versions in ascending order. *)
Definition february_30_ascending_document : str :=
  text ["# Changelog"; "## [Unreleased]"; "## [1.0.0] - 2024-03-01";
        "## [2.0.0] - 2024-02-30"; ""]%string.

(** A release with a section that has no ['section'] key. *)
Definition unlabelled_release : Version :=
  mkVersion (lit "1.0.0") (lit "2024-01-01")
    [[(lit "changes", PList [PStr (lit "- a fix")])]].

(** A [### Security] heading on the line after a [### Added] heading. *)
Definition security_document : str :=
  text ["# Changelog"; ""; "## [Unreleased]"; "";
        "## [1.1.0] - 2024-02-01"; "### Added"; "### Security";
        "- a fix"; ""; "## [1.0.0] - 2024-01-01"; "### Fixed";
        "- an entry"; ""]%string.

(** A [### Security] section with a body of its own. *)
Definition security_section_document : str :=
  text ["# Changelog"; ""; "## [Unreleased]"; "";
        "## [1.1.0] - 2024-02-01"; "### Security"; "- a fix"; "";
        "## [1.0.0] - 2024-01-01"; "### Fixed"; "- an entry"; ""]%string.

(** A release whose one section is labelled [Security]. *)
Definition security_release : Version :=
  mkVersion (lit "1.0.0") (lit "2024-01-01")
    [[(lit "section", PStr (lit "Security"));
      (lit "changes", PList [PStr (lit "- a fix")])]].

(** A release whose version token is [Unreleased]. *)
Definition unreleased_release : Version :=
  mkVersion (lit "Unreleased") (lit "2024-01-01") [].

(** ** The files *)

(** [c.lower()] for a code point below 256: the capital letters of ASCII
    and those of Latin-1 (192 to 222, without the multiplication sign 215)
    move up by 32; every other one stays. *)
Definition lower_char (c : ascii) : ascii :=
  if in_range "A"%char "Z"%char c
     || (Nat.leb 192 (code c) && Nat.leb (code c) 222
         && negb (Nat.eqb (code c) 215))
  then ascii_of_nat (code c + 32)
  else c.

(** [s.lower()] *)
Definition lower (s : str) : str := map lower_char s.

Module Os.

Definition sep : ascii := "/"%char.

(** [path.endswith(sep)] *)
Definition endswith_sep (path : str) : bool :=
  match rev path with
  | c :: _ => Ascii.eqb c sep
  | [] => false
  end.

(** [os.path.join(path, b)] of [posixpath]. *)
Definition path_join (path b : str) : str :=
  if Py.startswith [sep] b then b
  else if match path with [] => true | _ :: _ => endswith_sep path end
  then path ++ b
  else path ++ sep :: b.

(** A directory as [os.walk] reads it: the names of its sub-directories
    and the names of its other entries, each list in the order [scandir]
    gives. A sub-directory that [os.walk] does not enter (a symbolic link,
    a directory it cannot list) has no tree. *)
#[local] Unset Elimination Schemes.
Inductive tree : Type :=
| Dir (dirs : list (str * option tree)) (files : list str).
#[local] Set Elimination Schemes.

(** [os.walk(top)]: the triples [(root, dirs, files)] it yields, top
    down. *)
Fixpoint walk (top : str) (t : tree)
    : list (str * list str * list str) :=
  match t with
  | Dir dirs files =>
      (top, map fst dirs, files)
      :: flat_map (fun d =>
                     match d with
                     | (name, Some sub) => walk (path_join top name) sub
                     | (_, None) => []
                     end) dirs
  end.

(** [os.walk(top)] when [top] itself may be a directory that cannot be
    listed: then it yields nothing. *)
Definition walk_top (top : str) (t : option tree)
    : list (str * list str * list str) :=
  match t with
  | Some t => walk top t
  | None => []
  end.

(** What the program sees of the machine: the working directory, the tree
    below it ([None] when it cannot be listed), and what opening a path
    and reading it gives ([None] when that raises). *)
Record world : Type := World {
  getcwd : str;
  below : option tree;
  read : str -> option str
}.

End Os.

(** ** [find_changelog_file] *)

(** The inner loop over the files of one directory. *)
Fixpoint find_in_files (root : str) (files : list str) : option str :=
  match files with
  | [] => None
  | file :: files' =>
      if str_eqb (lower file) (lit "changelog.md")
      then Some (Os.path_join root file)
      else find_in_files root files'
  end.

(** The outer loop over the triples of [os.walk]. *)
Fixpoint find_in_walk (triples : list (str * list str * list str))
    : option str :=
  match triples with
  | [] => None
  | (root, _, files) :: triples' =>
      match find_in_files root files with
      | Some path => Some path
      | None => find_in_walk triples'
      end
  end.

Definition find_changelog_file (w : Os.world) : option str :=
  let current_dir := Os.getcwd w in
  find_in_walk (Os.walk_top current_dir (Os.below w)).

(** ** [main] *)

(** What [parse_args] returns when it returns. [main] below is the
    function from there on; [script] further down puts [parse_args] in
    front of it. *)
Record Namespace : Type := Args { file : option str; auto : bool }.

(** How the script stops before the end of [main]: [exit(status)], an
    exception nothing catches, [open] or [read] raising, or a value of
    another type than the annotations of [Version.__init__] name. *)
Inductive ending : Type :=
| Exit (status : nat)
| Uncaught (e : exn)
| OpenError
| TypeMismatch.

Inductive step (A : Type) : Type :=
| Next (a : A)
| Stop (e : ending).

Arguments Next {A} a.
Arguments Stop {A} e.

(** A part of [main]: what it prints, and whether [main] goes on. *)
Definition proc (A : Type) : Type := (list (list pyval) * step A)%type.

Definition next {A} (a : A) : proc A := ([], Next a).

Definition exit {A} (status : nat) : proc A := ([], Stop (Exit status)).

Definition lift {A} (m : io A) : proc A :=
  match m with
  | (out, Return a) => (out, Next a)
  | (out, Raise e) => (out, Stop (Uncaught e))
  end.

Definition and_then {A B} (m : proc A) (f : A -> proc B) : proc B :=
  match m with
  | (out, Next a) => let (out', r) := f a in (out ++ out', r)
  | (out, Stop e) => (out, Stop e)
  end.

Notation "x <~ m ;; k" := (and_then m (fun x => k))
  (at level 61, m at next level, right associativity).
Notation "m ~;; k" := (and_then m (fun _ => k))
  (at level 61, right associativity).

Definition as_str (v : pyval) : proc str :=
  match v with
  | PStr s => next s
  | _ => ([], Stop TypeMismatch)
  end.

Fixpoint as_dicts (l : list pyval) : proc (list dict) :=
  match l with
  | [] => next []
  | PDict d :: l' => ds <~ as_dicts l' ;; next (d :: ds)
  | _ :: _ => ([], Stop TypeMismatch)
  end.

Definition as_sections (v : pyval) : proc (list dict) :=
  match v with
  | PList l => as_dicts l
  | _ => ([], Stop TypeMismatch)
  end.

(** [with open(changelog_file, 'r') as file: file.read()] *)
Definition open_read (w : Os.world) (path : str) : proc str :=
  match Os.read w path with
  | Some content => next content
  | None => ([], Stop OpenError)
  end.

Definition errors_found (version : str) : str :=
  lit "Errors found in version " ++ version ++ lit ":".

Definition is_valid (version : str) : str :=
  lit "Version " ++ version ++ lit " is valid.".

(** The loop [for error in errors]. *)
Fixpoint print_errors (errors : list str) : io unit :=
  match errors with
  | [] => ret tt
  | error :: errors' =>
      print [PStr (lit "- " ++ error)] ;;
      print_errors errors'
  end.

(** The loop [for version_data in changelog]. *)
Fixpoint check_versions (changelog : list dict) (allowed_sections : list str)
    : proc unit :=
  match changelog with
  | [] => next tt
  | version_data :: changelog' =>
      version <~ lift (getitem version_data (lit "version")) ;;
      date <~ lift (getitem version_data (lit "date")) ;;
      sections <~ lift (getitem version_data (lit "sections")) ;;
      version <~ as_str version ;;
      date <~ as_str date ;;
      sections <~ as_sections sections ;;
      let version_obj := mkVersion version date sections in
      errors <~ lift (verify_version version_obj allowed_sections) ;;
      match errors with
      | _ :: _ =>
          lift (print [PStr (errors_found version)]) ~;;
          lift (print_errors errors) ~;;
          exit 1
      | [] =>
          lift (print [PStr (is_valid version)]) ~;;
          check_versions changelog' allowed_sections
      end
  end.

Definition main (args : Namespace) (w : Os.world) : proc unit :=
  changelog_file <~
    (if auto args
     then
       match find_changelog_file w with
       | None =>
           lift (print [PStr (lit "No changelog.md file found in the directory or its subdirectories.")]) ~;;
           exit 1
       | Some changelog_file => next changelog_file
       end
     else
       match file args with
       | None =>
           lift (print [PStr (lit "Please provide the path to the changelog file using the --file argument or use --auto to automatically find the file.")]) ~;;
           exit 1
       | Some changelog_file => next changelog_file
       end) ;;
  let allowed_sections :=
    [lit "Added"; lit "Changed"; lit "Fixed"; lit "Deprecated";
     lit "Removed"] in
  changelog_content <~ open_read w changelog_file ;;
  ok <~ lift (verify_changelog_format changelog_content) ;;
  (if negb ok
   then lift (print [PStr (lit "Changelog format is invalid.")]) ~;; exit 1
   else next tt) ~;;
  changelog <~ lift (parse_changelog changelog_content allowed_sections) ;;
  (match changelog with
   | [] => lift (print [PStr (lit "Issue with changelog parsing")]) ~;; exit 1
   | _ :: _ => next tt
   end) ~;;
  check_versions changelog allowed_sections.

(** ** Terms for the statements about the scan *)

(** What the heading check asks of one line. *)
Definition heading_ok (line : str) : bool :=
  negb (opens_release line) || matches heading_regex (Py.strip line).

(** What the ordering loop does with the dated releases, pair by pair:
    it raises at a date outside the calendar, returns false at a pair out
    of order and true at the end. *)
Fixpoint order_outcome (l : list (str * str)) : outcome bool :=
  match l with
  | a :: (b :: _) as l' =>
      if calendar_date (snd b) && calendar_date (snd a)
      then if in_order a b then order_outcome l' else Return false
      else Raise ValueError
  | _ => Return true
  end.

(** The result of the whole scan, without its printing. *)
Definition scan_outcome (content : str) : outcome bool :=
  if negb (Py.contains (lit "# Changelog") content) then Return false
  else if negb (Py.contains (lit "## [Unreleased]") content) then Return false
  else if negb (forallb heading_ok (Py.split [newline] content))
  then Return false
  else if Nat.ltb (length (dated_releases content)) 2 then Return false
  else order_outcome (dated_releases content).

(** One date is later than another, as a proposition. *)
Definition comes_after (a b : datetime) : Prop :=
  year b < year a \/
  (year a = year b /\
   (month b < month a \/ (month a = month b /\ day b < day a))).

(** ** Terms for the statements about the extractor and the validator *)

(** The record [parse_changelog] builds for one heading found. *)
Definition release_dict (content : str) (found : str * str) : dict :=
  [(lit "version", PStr (fst found)); (lit "date", PStr (snd found));
   (lit "sections", PList (map PDict (document_sections content)))].

(** Every label the section scan finds is allowed. *)
Definition found_labels_allowed (content : str) (allowed : list str) : bool :=
  forallb (fun found => Py.mem (Py.strip (fst found)) allowed)
          (findall2 section_regex content).

(** A string of digits that is not empty. *)
Definition is_digits (w : str) : bool :=
  match w with
  | [] => false
  | _ :: _ => forallb is_digit w
  end.

(** The label of a section found is allowed. *)
Definition label_ok (allowed : list str) (found : str * str) : bool :=
  Py.mem (Py.strip (fst found)) allowed.

(** ** Terms for the statements about the files and [main] *)

(** Every code point of the text model. *)
Definition all_chars : list ascii := map ascii_of_nat (seq 0 256).

(** [c] is [l], or [l] is a small ASCII letter and [c] its capital. *)
Definition same_letter (c l : ascii) : bool :=
  Ascii.eqb c l
  || (in_range "a"%char "z"%char l && Nat.eqb (code c + 32) (code l)).

(** [file] is [name] up to the case of the ASCII letters. *)
Fixpoint same_name (file name : str) : bool :=
  match file, name with
  | [], [] => true
  | c :: file', l :: name' => same_letter c l && same_name file' name'
  | _, _ => false
  end.

(** An ASCII character that is no capital letter. *)
Definition small_ascii (l : ascii) : bool :=
  Nat.ltb (code l) 128 && negb (in_range "A"%char "Z"%char l).

Definition wanted (file : str) : bool := same_name file (lit "changelog.md").

Definition unwanted (files : list str) : bool :=
  forallb (fun file => negb (wanted file)) files.

Definition no_match (triples : list (str * list str * list str)) : bool :=
  forallb (fun t => unwanted (snd t)) triples.

(** The file [main] is going to open. *)
Definition chosen_file (args : Namespace) (w : Os.world) : option str :=
  if auto args then find_changelog_file w else file args.

(** The line [main] prints when it has no file to open. *)
Definition no_file_message (args : Namespace) : str :=
  if auto args
  then lit "No changelog.md file found in the directory or its subdirectories."
  else lit "Please provide the path to the changelog file using the --file argument or use --auto to automatically find the file.".

(** The lines of the loop over the releases, from the versions alone. *)
Fixpoint report (versions : list str) : proc unit :=
  match versions with
  | [] => next tt
  | v :: versions' =>
      if verify_semver v
      then let (out, e) := report versions' in ([PStr (is_valid v)] :: out, e)
      else ([[PStr (errors_found v)];
             [PStr (lit "- " ++ semver_message v)]], Stop (Exit 1))
  end.

(** [main] once the file is read. *)
Definition main_on (content : str) : proc unit :=
  match verify_changelog_format content with
  | (out, Raise e) => (out, Stop (Uncaught e))
  | (out, Return false) =>
      (out ++ [[PStr (lit "Changelog format is invalid.")]], Stop (Exit 1))
  | (out, Return true) =>
      if found_labels_allowed content allowed_labels
      then
        let (out', e) := report (map fst (findall2 release_regex content)) in
        (out ++ out', e)
      else
        (out ++ printed (parse_changelog content allowed_labels)
             ++ [[PStr (lit "Issue with changelog parsing")]],
         Stop (Exit 1))
  end.

(** ** A repository used as an example *)

(** Two releases in order, the lower one with a leading zero. *)
Definition leading_zero_document : str :=
  text ["# Changelog"; "## [Unreleased]"; "## [1.0.0] - 2024-02-01";
        "## [01.0.0] - 2024-01-01"; ""]%string.

(** A working directory with a changelog of its own and one further
    down. *)
Definition repository : Os.world :=
  Os.World (lit "/repo")
    (Some (Os.Dir [(lit "docs", Some (Os.Dir [] [lit "changelog.md"]))]
                  [lit "README.md"; lit "ChangeLog.MD"]))
    (fun path =>
       if str_eqb path (lit "/repo/ChangeLog.MD")
       then Some well_ordered_document
       else if str_eqb path (lit "old.md") then Some leading_zero_document
       else None).

(** The arguments [--file old.md]. *)
Definition with_old_file : Namespace := Args (Some (lit "old.md")) false.

(** The arguments [--auto]. *)
Definition with_auto : Namespace := Args None true.

(** ** [main] from the command line *)

(** What [parser.parse_args()] does with the command line: it returns
    the namespace; or, on [-h], it writes the help and leaves the script
    by [SystemExit] with status 0; or, on a command line it refuses, it
    writes the usage and leaves with status 2. What [argparse] writes does
    not go through [print] and is not kept. *)
Inductive parse_args : Type :=
| Parsed (args : Namespace)
| Help
| Refused.

(** [main()] as a whole: [parse_args], then the rest. *)
Definition script (p : parse_args) (w : Os.world) : proc unit :=
  match p with
  | Parsed args => main args w
  | Help => exit 0
  | Refused => exit 2
  end.

(** ** Text beyond code point 255

    The program reads text of any code points. The patterns keep their
    syntax; on such text a literal and a range go by code point, and [\d]
    accepts the decimal digits of every script: the 660 code points of the
    category Nd of Unicode 14.0, the one Python 3.11 carries, in 66 runs
    of ten. *)

Module Wide.

(** A text, one code point per character. *)
Definition wstr : Type := list N.

(** A text of code points below 256 among all texts. *)
Definition widen (s : str) : wstr := map N_of_ascii s.

(** The digit zero of every script that has decimal digits. *)
Definition decimal_zeros : list N :=
  [48; 1632; 1776; 1984; 2406; 2534; 2662; 2790; 2918; 3046; 3174; 3302;
   3430; 3558; 3664; 3792; 3872; 4160; 4240; 6112; 6160; 6470; 6608; 6784;
   6800; 6992; 7088; 7232; 7248; 42528; 43216; 43264; 43472; 43504; 43600;
   44016; 65296; 66720; 68912; 69734; 69872; 69942; 70096; 70384; 70736;
   70864; 71248; 71360; 71472; 71904; 72016; 72784; 73040; 73120; 92768;
   92864; 93008; 120782; 120792; 120802; 120812; 120822; 123200; 123632;
   125264; 130032]%N.

(** [\d] *)
Definition is_decimal (c : N) : bool :=
  existsb (fun zero => N.leb zero c && N.leb c (zero + 9)) decimal_zeros.

Fixpoint accepts (k : cclass) (c : N) : bool :=
  match k with
  | CChar x => N.eqb (N_of_ascii x) c
  | CDigit => is_decimal c
  | CDot => negb (N.eqb c (N_of_ascii newline))
  | CAll => true
  | CRange lo hi => N.leb (N_of_ascii lo) c && N.leb c (N_of_ascii hi)
  | CUnion a b => accepts a c || accepts b c
  end.

Definition captures := list (nat * wstr).

Record state : Type := St { rest : wstr; caps : captures }.

Definition advances (st st' : state) : bool :=
  length (rest st') <? length (rest st).

Definition consumed (st st' : state) : wstr :=
  firstn (length (rest st) - length (rest st')) (rest st).

Fixpoint iter (step : state -> list state) (greedy : bool) (fuel : nat)
    (st : state) : list state :=
  match fuel with
  | O => [st]
  | S f =>
      let deeper := flat_map (iter step greedy f)
                             (filter (advances st) (step st)) in
      if greedy then deeper ++ [st] else st :: deeper
  end.

(** [Re.exec] on such text. *)
Fixpoint exec (r : regex) (st : state) : list state :=
  match r with
  | Empty => [st]
  | Class k =>
      match rest st with
      | c :: s' => if accepts k c then [St s' (caps st)] else []
      | [] => []
      end
  | Cat r1 r2 => flat_map (exec r2) (exec r1 st)
  | Or r1 r2 => exec r1 st ++ exec r2 st
  | Star g r1 => iter (exec r1) g (length (rest st)) st
  | Group n r1 =>
      map (fun st' => St (rest st') ((n, consumed st st') :: caps st'))
          (exec r1 st)
  | Ahead r1 =>
      match exec r1 st with
      | st' :: _ => [St (rest st) (caps st')]
      | [] => []
      end
  | EndZ => match rest st with [] => [st] | _ :: _ => [] end
  | Dollar =>
      match rest st with
      | [] => [st]
      | [c] => if N.eqb c (N_of_ascii newline) then [st] else []
      | _ :: _ :: _ => []
      end
  end.

(** [re.match(r, s)] *)
Definition rmatch (r : regex) (s : wstr) : option state :=
  match exec r (St s []) with
  | st :: _ => Some st
  | [] => None
  end.

Definition matches (r : regex) (s : wstr) : bool :=
  match rmatch r s with Some _ => true | None => false end.

(** [KACLValidator.verify_semver] *)
Definition verify_semver (version : wstr) : bool :=
  if negb (matches semver_regex version) then false else true.

End Wide.

(** A version of six characters: the digit [1], the Arabic-Indic digit
    two (U+0662, code point 1634), then [.0.0]. *)
Definition foreign_digit_version : Wide.wstr := [49; 1634; 46; 48; 46; 48]%N.

(** The same without the leading [1]: the Arabic-Indic digit two, then
    [.0.0]. *)
Definition foreign_major_version : Wide.wstr := [1634; 46; 48; 46; 48]%N.

(** A matcher state on a text of code points below 256, among the states
    on any text. *)
Definition widen_caps (cs : Re.captures) : Wide.captures :=
  map (fun b => (fst b, Wide.widen (snd b))) cs.

Definition widen_state (st : Re.state) : Wide.state :=
  Wide.St (Wide.widen (rest st)) (widen_caps (caps st)).

(** ** Facts about the matcher *)

Module ReFacts.

Lemma flat_map_agree (A B : Type) (f g : A -> list B) (l : list A) :
  (forall a, In a l -> f a = g a) -> flat_map f l = flat_map g l.
Proof.
  induction l as [|a l IH]; intros E; simpl.
  - reflexivity.
  - rewrite (E a (or_introl eq_refl)), IH; auto.
    intros b Hb. apply E. now right.
Qed.

Lemma advances_lt st st' :
  advances st st' = true <-> length (rest st') < length (rest st).
Proof. unfold advances. apply Nat.ltb_lt. Qed.

Lemma no_advance_at_end (st : state) (l : list state) :
  rest st = [] -> filter (advances st) l = [].
Proof.
  intros E. induction l as [|x l IH]; simpl; auto.
  unfold advances at 1. rewrite E. simpl. exact IH.
Qed.

(** Fuel beyond the length of the text changes nothing. *)
Lemma iter_fuel step g : forall f1 f2 st,
  length (rest st) <= f1 -> length (rest st) <= f2 ->
  iter step g f1 st = iter step g f2 st.
Proof.
  induction f1 as [|f1 IH]; intros f2 st H1 H2.
  - assert (E : rest st = []) by (destruct (rest st); simpl in *; [auto|lia]).
    destruct f2 as [|f2]; simpl; auto.
    rewrite (no_advance_at_end st _ E). simpl. now destruct g.
  - destruct f2 as [|f2].
    + assert (E : rest st = []) by (destruct (rest st); simpl in *; [auto|lia]).
      simpl. rewrite (no_advance_at_end st _ E). simpl. now destruct g.
    + simpl.
      rewrite (@flat_map_agree _ _ (iter step g f1) (iter step g f2)); auto.
      intros a Ha. apply filter_In in Ha. destruct Ha as [_ Ha].
      apply advances_lt in Ha. apply IH; lia.
Qed.

Lemma in_iter step g : forall f st st',
  In st' (iter step g f st) ->
  st' = st \/
  exists f' st1, f = S f' /\ In st1 (step st) /\
    length (rest st1) < length (rest st) /\ In st' (iter step g f' st1).
Proof.
  intros [|f] st st' H; simpl in H.
  - left. destruct H as [H|[]]. now symmetry.
  - assert (D : st' = st \/
                In st' (flat_map (iter step g f)
                                 (filter (advances st) (step st)))).
    { destruct g.
      - apply in_app_or in H. destruct H as [H|[H|[]]]; auto.
      - destruct H as [H|H]; auto. }
    destruct D as [D|D]; [now left|right].
    apply in_flat_map in D. destruct D as [st1 [H1 H2]].
    apply filter_In in H1. destruct H1 as [H1 Hadv].
    exists f, st1. repeat split; auto. now apply advances_lt.
Qed.

Lemma iter_stop step g f st : In st (iter step g f st).
Proof.
  destruct f; simpl; auto. destruct g; [apply in_or_app|]; simpl; auto.
Qed.

Lemma iter_round step g f st st1 st' :
  In st1 (step st) -> length (rest st1) < length (rest st) ->
  In st' (iter step g f st1) -> In st' (iter step g (S f) st).
Proof.
  intros H1 Hlt H2. simpl.
  assert (D : In st' (flat_map (iter step g f)
                               (filter (advances st) (step st)))).
  { apply in_flat_map. exists st1. split; auto.
    apply filter_In. split; auto. now apply advances_lt. }
  destruct g; [apply in_or_app|]; simpl; auto.
Qed.

(** Every result of the matcher is a reading of the pattern. *)
Theorem exec_span : forall r st st',
  In st' (exec r st) -> Span r (rest st) (rest st').
Proof.
  induction r as [|k|r1 IH1 r2 IH2|r1 IH1 r2 IH2|g r IH|n r IH|r IH| |];
    intros st st' H; simpl in H.
  - destruct H as [<-|[]]. constructor.
  - destruct (rest st) as [|c s] eqn:E; [destruct H|].
    destruct (accepts k c) eqn:A; [|destruct H].
    destruct H as [<-|[]]. simpl. now constructor.
  - apply in_flat_map in H. destruct H as [st1 [H1 H2]].
    eapply SpCat; eauto.
  - apply in_app_or in H. destruct H as [H|H].
    + apply SpOrL; auto.
    + apply SpOrR; auto.
  - remember (length (rest st)) as f eqn:Ef. clear Ef.
    revert st st' H. induction f as [|f IHf]; intros st st' H.
    + destruct H as [<-|[]]. constructor.
    + apply in_iter in H. destruct H as [->|[f' [st1 [E [H1 [Hlt H2]]]]]].
      * constructor.
      * injection E as <-. eapply SpRound; eauto.
  - apply in_map_iff in H. destruct H as [st1 [<- H1]]. simpl.
    constructor; auto.
  - destruct (exec r st) as [|st1 l] eqn:E; [destruct H|].
    destruct H as [<-|[]]. simpl. eapply SpAhead. apply (IH st st1).
    rewrite E. now left.
  - destruct (rest st) eqn:E; [|destruct H].
    destruct H as [<-|[]]. rewrite E. constructor.
  - destruct (rest st) as [|c [|c' s]] eqn:E; [| |destruct H].
    + destruct H as [<-|[]]. rewrite E. constructor.
    + destruct (Ascii.eqb c newline) eqn:C; [|destruct H].
      destruct H as [<-|[]]. rewrite E. apply Ascii.eqb_eq in C. subst c.
      constructor.
Qed.

(** Every reading of the pattern is among the results of the matcher,
    whatever groups were bound before. *)
Theorem span_exec : forall r s s',
  Span r s s' -> forall cs, exists cs', In (St s' cs') (exec r (St s cs)).
Proof.
  induction 1 as [s|k c s A|r1 r2 s s1 s2 _ IH1 _ IH2|r1 r2 s s' _ IH
                 |r1 r2 s s' _ IH|g r s|g r s s1 s2 _ IH1 Hlt _ IH2
                 |n r s s' _ IH|r s s' _ IH| | |]; intros cs; simpl.
  - exists cs. now left.
  - rewrite A. exists cs. now left.
  - destruct (IH1 cs) as [c1 H1]. destruct (IH2 c1) as [c2 H2].
    exists c2. apply in_flat_map. eauto.
  - destruct (IH cs) as [c1 H1]. exists c1. apply in_or_app. auto.
  - destruct (IH cs) as [c1 H1]. exists c1. apply in_or_app. auto.
  - exists cs. apply iter_stop.
  - destruct (IH1 cs) as [c1 H1]. destruct (IH2 c1) as [c2 H2].
    exists c2. simpl in H2.
    destruct (length s) as [|f] eqn:E; [lia|].
    apply (@iter_round _ _ _ _ (St s1 c1)); simpl; auto; try lia.
    rewrite (@iter_fuel _ _ f (length s1)); simpl; auto; lia.
  - destruct (IH cs) as [c1 H1].
    eexists. apply in_map_iff. exists (St s' c1). split; [|exact H1].
    simpl. reflexivity.
  - destruct (IH cs) as [c1 H1].
    destruct (exec r (St s cs)) as [|st1 l]; [destruct H1|].
    eexists. now left.
  - exists cs. now left.
  - exists cs. now left.
  - exists cs. now left.
Qed.

(** [re.match] finds a match exactly when the pattern has a reading. *)
Corollary matches_span r s :
  matches r s = true <-> exists s', Span r s s'.
Proof.
  unfold matches, rmatch. split.
  - destruct (exec r (St s [])) as [|st l] eqn:E; [discriminate|].
    intros _. exists (rest st).
    apply (@exec_span r (St s []) st). rewrite E. now left.
  - intros [s' H]. destruct (span_exec H []) as [cs' H'].
    destruct (exec r (St s [])); [destruct H'|reflexivity].
Qed.

(** What a pattern reads is a prefix of the text. *)
Lemma span_prefix r s s' : Span r s s' -> exists w, s = w ++ s'.
Proof.
  induction 1 as [s|k c s A|r1 r2 s s1 s2 _ IH1 _ IH2|r1 r2 s s' _ IH
                 |r1 r2 s s' _ IH|g r s|g r s s1 s2 _ IH1 Hlt _ IH2
                 |n r s s' _ IH|r s s' _ IH| | |];
    try (now exists []); auto.
  - now exists [c].
  - destruct IH1 as [w1 ->]. destruct IH2 as [w2 ->].
    exists (w1 ++ w2). now rewrite app_assoc.
  - destruct IH1 as [w1 ->]. destruct IH2 as [w2 ->].
    exists (w1 ++ w2). now rewrite app_assoc.
Qed.

(** A pattern without groups binds none. *)
Lemma groupless_caps : forall r st st',
  groupless r = true -> In st' (exec r st) -> caps st' = caps st.
Proof.
  induction r as [|k|r1 IH1 r2 IH2|r1 IH1 r2 IH2|g r IH|n r IH|r IH| |];
    intros st st' G H; simpl in *.
  - destruct H as [<-|[]]. reflexivity.
  - destruct (rest st) as [|c s]; [destruct H|].
    destruct (accepts k c); [|destruct H]. destruct H as [<-|[]]. reflexivity.
  - apply andb_true_iff in G. destruct G as [G1 G2].
    apply in_flat_map in H. destruct H as [st1 [H1 H2]].
    rewrite (IH2 _ _ G2 H2). eauto.
  - apply andb_true_iff in G. destruct G as [G1 G2].
    apply in_app_or in H. destruct H; eauto.
  - remember (length (rest st)) as f eqn:Ef. clear Ef.
    revert st st' H. induction f as [|f IHf]; intros st st' H.
    + destruct H as [<-|[]]. reflexivity.
    + apply in_iter in H. destruct H as [->|[f' [st1 [E [H1 [_ H2]]]]]]; auto.
      injection E as <-. rewrite (IHf _ _ H2). eauto.
  - discriminate.
  - destruct (exec r st) as [|st1 l] eqn:E; [destruct H|].
    destruct H as [<-|[]]. simpl. apply IH; auto. rewrite E. now left.
  - destruct (rest st); [|destruct H]. destruct H as [<-|[]]. reflexivity.
  - destruct (rest st) as [|c [|c' s]]; [| |destruct H].
    + destruct H as [<-|[]]. reflexivity.
    + destruct (Ascii.eqb c newline); [|destruct H].
      destruct H as [<-|[]]. reflexivity.
Qed.

End ReFacts.

(** ** The matcher on small texts *)

Module ReExamples.

(** A greedy star reads as much as it can, a lazy one as little. *)
Example greedy_reads_all :
  option_map rest (rmatch (Star true (Class CDigit)) (lit "12a"))
  = Some (lit "a").
Proof. reflexivity. Qed.

Example lazy_reads_nothing :
  option_map rest (rmatch (Star false (Class CDigit)) (lit "12a"))
  = Some (lit "12a").
Proof. reflexivity. Qed.

(** A lazy star gives way until what follows it matches, and the group
    around it holds what it read. *)
Example lazy_group :
  option_map caps
    (rmatch (Cat (Group 1 (Star false (Class CDot)))
                 (Class (CChar "]"))) (lit "ab]c]"))
  = Some [(1, lit "ab")].
Proof. reflexivity. Qed.

(** The left alternative is tried first: [0|[1-9]\d*] reads only the
    zero of ["01"]. *)
Example left_alternative_first :
  option_map rest
    (rmatch (Or (Class (CChar "0"))
                (Cat (Class (CRange "1" "9")) (Star true (Class CDigit))))
            (lit "01"))
  = Some (lit "1").
Proof. reflexivity. Qed.

(** [$] holds at the end and before a last newline, [\Z] at the end
    only. *)
Example dollar_before_last_newline :
  matches (Cat (Class (CChar "a")) Dollar) [ "a"%char; newline ] = true /\
  matches (Cat (Class (CChar "a")) EndZ) [ "a"%char; newline ] = false.
Proof. split; reflexivity. Qed.

(** [findall] resumes where the last match ended. *)
Example findall_resumes_after_match :
  findall2 (Cat (Group 1 (Class CDigit)) (Group 2 (Class CDigit)))
           (lit "1234a56")
  = [(lit "1", lit "2"); (lit "3", lit "4"); (lit "5", lit "6")].
Proof. reflexivity. Qed.

End ReExamples.

(** ** Facts about the patterns of the program *)

Module PatternFacts.

Import ReFacts.

Ltac list_norm := simpl; repeat (rewrite <- app_assoc; simpl).

Lemma span_empty_inv s s' : Span Empty s s' -> s = s'.
Proof. now inversion 1. Qed.

Lemma span_class_inv k s s' :
  Span (Class k) s s' -> exists c, s = c :: s' /\ accepts k c = true.
Proof. inversion 1; subst. eauto. Qed.

Lemma span_cat_inv r1 r2 s s' :
  Span (Cat r1 r2) s s' -> exists s1, Span r1 s s1 /\ Span r2 s1 s'.
Proof. inversion 1; subst. eauto. Qed.

Lemma span_or_inv r1 r2 s s' :
  Span (Or r1 r2) s s' -> Span r1 s s' \/ Span r2 s s'.
Proof. inversion 1; subst; auto. Qed.

Lemma span_group_inv n r s s' : Span (Group n r) s s' -> Span r s s'.
Proof. now inversion 1. Qed.

Lemma span_char_inv c s s' : Span (Class (CChar c)) s s' -> s = c :: s'.
Proof.
  intros H. apply span_class_inv in H. destruct H as [x [-> A]].
  simpl in A. apply Ascii.eqb_eq in A. now subst.
Qed.

Lemma span_digit_inv s s' :
  Span (Class CDigit) s s' -> exists c, s = c :: s' /\ is_digit c = true.
Proof. apply span_class_inv. Qed.

Ltac span_inv :=
  repeat match goal with
  | H : Span (Cat _ _) _ _ |- _ =>
      apply span_cat_inv in H; destruct H as [? [? ?]]
  | H : Span (Class (CChar _)) _ _ |- _ => apply span_char_inv in H; subst
  | H : Span (Class CDigit) _ _ |- _ =>
      apply span_digit_inv in H; destruct H as [? [? ?]]; subst
  | H : Span Empty _ _ |- _ => apply span_empty_inv in H; subst
  | H : Span (Group _ _) _ _ |- _ => apply span_group_inv in H
  end.

Ltac span_build :=
  repeat first
    [ eapply SpCat
    | apply SpGroup
    | apply SpClass; first [assumption | reflexivity | apply Ascii.eqb_refl] ].

Lemma is_digit_code c : is_digit c = true <-> 48 <= code c <= 57.
Proof.
  unfold is_digit, in_range. change (code "0") with 48.
  change (code "9") with 57.
  rewrite andb_true_iff, !Nat.leb_le. tauto.
Qed.

Lemma in_range_19 c : in_range "1" "9" c = true <-> 49 <= code c <= 57.
Proof.
  unfold in_range. change (code "1") with 49. change (code "9") with 57.
  rewrite andb_true_iff, !Nat.leb_le. tauto.
Qed.

Lemma code_inj c d : code c = code d -> c = d.
Proof.
  unfold code. intros E.
  rewrite <- (ascii_nat_embedding c), <- (ascii_nat_embedding d).
  now rewrite E.
Qed.

Lemma digit_cases c :
  is_digit c = true <-> c = "0"%char \/ in_range "1" "9" c = true.
Proof.
  rewrite is_digit_code, in_range_19. split.
  - intros H. destruct (Nat.eq_dec (code c) 48) as [E|E].
    + left. now apply code_inj.
    + right. lia.
  - intros [->|H]; [change (code "0") with 48|]; lia.
Qed.

(** What a starred character class reads. *)
Lemma span_star_class g k s s' :
  Span (Star g (Class k)) s s' ->
  exists w, s = w ++ s' /\ forallb (accepts k) w = true.
Proof.
  intros H. remember (Star g (Class k)) as r eqn:E.
  induction H as [| | | | | |g0 r0 s s1 s2 H1 _ _ _ IH| | | | |];
    try discriminate.
  - now exists [].
  - injection E as -> ->. apply span_class_inv in H1.
    destruct H1 as [c [-> A]]. destruct (IH eq_refl) as [w [-> F]].
    exists (c :: w). simpl. now rewrite A, F.
Qed.

Lemma star_class_span g k w s' :
  forallb (accepts k) w = true -> Span (Star g (Class k)) (w ++ s') s'.
Proof.
  induction w as [|c w IH]; simpl; intros F.
  - constructor.
  - apply andb_true_iff in F. destruct F as [A F].
    apply SpRound with (s1 := w ++ s'); auto. now constructor.
Qed.

Lemma span_numeric s s' :
  Span numeric s s' <-> exists w, s = w ++ s' /\ is_number w = true.
Proof.
  unfold numeric, chr, digit. split.
  - intros H. apply span_or_inv in H. destruct H as [H|H].
    + apply span_char_inv in H. subst. now exists ["0"%char].
    + apply span_cat_inv in H. destruct H as [s1 [H1 H2]].
      apply span_class_inv in H1. destruct H1 as [c [-> A]].
      apply span_star_class in H2. destruct H2 as [w [-> F]].
      exists (c :: w). split; [reflexivity|].
      simpl in A. destruct w as [|d w].
      * simpl. apply digit_cases. now right.
      * change (is_number (c :: d :: w))
          with (in_range "1" "9" c && forallb is_digit (d :: w)).
        now rewrite A.
  - intros [w [-> N]]. destruct w as [|c [|d w]]; simpl in N.
    + discriminate.
    + apply digit_cases in N. destruct N as [->|N].
      * apply SpOrL. now constructor.
      * apply SpOrR. eapply SpCat; [constructor; exact N|constructor].
    + apply andb_true_iff in N. destruct N as [N F].
      apply SpOrR. eapply SpCat; [constructor; exact N|].
      apply (@star_class_span true CDigit (d :: w) s'). exact F.
Qed.


Lemma verify_semver_matches s : verify_semver s = matches semver_regex s.
Proof. unfold verify_semver. now destruct (matches semver_regex s). Qed.

(** The date pattern reads the digit shape and nothing else. *)
Lemma span_date s s' :
  Span date_regex s s' <-> exists w, s = w ++ s' /\ date_shape w.
Proof.
  unfold date_regex, Seq, Times, chr, digit, date_shape. split.
  - intros H. span_inv.
    eexists. split; [|do 8 eexists; split; [reflexivity|]].
    + reflexivity.
    + repeat constructor; assumption.
  - intros [w [-> [y1 [y2 [y3 [y4 [m1 [m2 [d1 [d2 [-> F]]]]]]]]]]].
    repeat match goal with
           | H : Forall _ (_ :: _) |- _ => inversion H; subst; clear H
           end.
    simpl. span_build.
Qed.

Lemma date_shape_length w : date_shape w -> length w = 10.
Proof. intros [? [? [? [? [? [? [? [? [-> _]]]]]]]]]. reflexivity. Qed.

Lemma matches_date s :
  matches date_regex s = true <-> date_shape (firstn 10 s).
Proof.
  rewrite matches_span. split.
  - intros [s' H]. apply span_date in H. destruct H as [w [-> D]].
    assert (E : firstn 10 (w ++ s') = w).
    { destruct D as (? & ? & ? & ? & ? & ? & ? & ? & -> & _). reflexivity. }
    rewrite E. exact D.
  - intros D. exists (skipn 10 s). apply span_date.
    exists (firstn 10 s). split; [|exact D].
    symmetry. apply firstn_skipn.
Qed.

End PatternFacts.

(** ** The version pattern and the grammar of the specification *)

Module GrammarFacts.

Import ReFacts PatternFacts.

(** Induction along the rounds of a repetition. *)
Lemma span_star_induct g r (P : str -> str -> Prop) :
  (forall s, P s s) ->
  (forall s s1 s2, Span r s s1 -> length s1 < length s -> P s1 s2 -> P s s2) ->
  forall s s', Span (Star g r) s s' -> P s s'.
Proof.
  intros H0 HS s s' H. remember (Star g r) as q eqn:E.
  induction H as [| | | | | |g0 r0 s s1 s2 H1 _ Hlt _ IH| | | | |];
    try discriminate.
  - apply H0.
  - injection E as -> ->. eapply HS; eauto.
Qed.

(** *** Identifiers joined by dots *)

Section Dotted.

Variable r : regex.
Variable ident : str -> bool.
Hypothesis r_reads : forall s s',
  Span r s s' <-> exists w, s = w ++ s' /\ ident w = true.

Lemma join_dotted id ids : Py.join ["."%char] (id :: ids) = id ++ dotted ids.
Proof.
  revert id. induction ids as [|x ids IH]; intros id.
  - simpl. now rewrite app_nil_r.
  - change (Py.join ["."%char] (id :: x :: ids))
      with (id ++ ["."%char] ++ Py.join ["."%char] (x :: ids)).
    rewrite IH. reflexivity.
Qed.

Lemma span_dots s s' :
  Span (Star true (Cat (chr ".") r)) s s' <->
  exists ids, Forall (fun w => ident w = true) ids /\ s = dotted ids ++ s'.
Proof.
  split.
  - revert s s'. apply span_star_induct.
    + intros s. exists []. split; [constructor|reflexivity].
    + intros s s1 s2 H _ [ids [F ->]].
      apply span_cat_inv in H. destruct H as [s0 [H1 H2]].
      apply span_char_inv in H1. subst s.
      apply r_reads in H2. destruct H2 as [w [-> I]].
      exists (w :: ids). split; [now constructor|].
      unfold dotted. simpl. now rewrite <- app_assoc.
  - intros [ids [F ->]]. induction F as [|w ids I F IH].
    + constructor.
    + unfold dotted. simpl. rewrite <- app_assoc.
      apply SpRound with (s1 := dotted ids ++ s'); [| |exact IH].
      * eapply SpCat; [constructor; apply Ascii.eqb_refl|].
        apply r_reads. eauto.
      * unfold dotted. simpl. rewrite !length_app. lia.
Qed.

Lemma span_dotted s s' :
  Span (Cat r (Star true (Cat (chr ".") r))) s s' <->
  exists ids, ids <> [] /\ Forall (fun w => ident w = true) ids /\
              s = Py.join ["."%char] ids ++ s'.
Proof.
  split.
  - intros H. apply span_cat_inv in H. destruct H as [s1 [H1 H2]].
    apply r_reads in H1. destruct H1 as [w [-> I]].
    apply span_dots in H2. destruct H2 as [ids [F ->]].
    exists (w :: ids). split; [discriminate|]. split; [now constructor|].
    rewrite join_dotted. now rewrite <- app_assoc.
  - intros [[|w ids] [N [F ->]]]; [now elim N|].
    inversion F as [|? ? I F']; subst.
    rewrite join_dotted, <- app_assoc.
    eapply SpCat; [apply r_reads; eauto|].
    apply span_dots. eauto.
Qed.

(** An optional part after its mark. *)
Lemma span_optional n mark s s' :
  Span (Opt (Cat (chr mark)
                 (Group n (Cat r (Star true (Cat (chr ".") r)))))) s s' <->
  exists part, optional_part mark ident part /\ s = part ++ s'.
Proof.
  unfold Opt. split.
  - intros H. apply span_or_inv in H. destruct H as [H|H].
    + apply span_cat_inv in H. destruct H as [s1 [H1 H2]].
      apply span_char_inv in H1. subst s.
      apply span_group_inv, span_dotted in H2.
      destruct H2 as [ids [N [F ->]]].
      exists (mark :: Py.join ["."%char] ids). split; [now constructor|].
      reflexivity.
    + apply span_empty_inv in H. subst s'.
      exists []. split; [constructor|reflexivity].
  - intros [part [[|ids N F] ->]].
    + apply SpOrR. constructor.
    + apply SpOrL. simpl.
      eapply SpCat; [constructor; apply Ascii.eqb_refl|].
      apply SpGroup, span_dotted. eauto.
Qed.

End Dotted.

(** *** The identifiers *)

Lemma in_range_codes lo hi c :
  in_range lo hi c = true <-> code lo <= code c <= code hi.
Proof. unfold in_range. rewrite andb_true_iff, !Nat.leb_le. tauto. Qed.

Lemma accepts_ident_char c : accepts ident_char c = is_ident_char c.
Proof.
  unfold is_ident_char, is_digit, ident_char, letter_or_hyphen.
  cbn [accepts]. rewrite (Ascii.eqb_sym "-" c), !orb_assoc. reflexivity.
Qed.

Lemma letter_or_hyphen_spec c :
  accepts letter_or_hyphen c = true <->
  is_ident_char c = true /\ is_digit c = false.
Proof.
  unfold is_ident_char, letter_or_hyphen. cbn [accepts].
  rewrite (Ascii.eqb_sym "-" c). destruct (is_digit c) eqn:D.
  - split; [|intros [_ ?]; discriminate].
    intros H. exfalso. apply is_digit_code in D.
    rewrite !orb_true_iff, !in_range_codes in H.
    change (code "a") with 97 in H. change (code "z") with 122 in H.
    change (code "A") with 65 in H. change (code "Z") with 90 in H.
    destruct H as [H|[H|H]]; try lia.
    apply Ascii.eqb_eq in H. subst c. vm_compute in D. lia.
  - simpl. rewrite !orb_assoc. split; [auto|tauto].
Qed.

Lemma digit_is_ident_char c : is_digit c = true -> is_ident_char c = true.
Proof. unfold is_ident_char. now intros ->. Qed.

Lemma digits_are_ident_chars w :
  forallb is_digit w = true -> forallb is_ident_char w = true.
Proof.
  induction w as [|c w IH]; simpl; auto.
  rewrite !andb_true_iff. intros [D F]. split; auto.
  now apply digit_is_ident_char.
Qed.

(** A word of identifier characters with a character that is not a digit
    splits at the first such character. *)
Lemma split_at_letter : forall w,
  forallb is_ident_char w = true ->
  existsb (fun c => negb (is_digit c)) w = true ->
  exists ds c cs,
    w = ds ++ c :: cs /\ forallb is_digit ds = true /\
    accepts letter_or_hyphen c = true /\ forallb is_ident_char cs = true.
Proof.
  induction w as [|x w IH]; simpl; [discriminate|].
  rewrite andb_true_iff. intros [I F] E.
  destruct (is_digit x) eqn:D; simpl in E.
  - destruct (IH F E) as (ds & c & cs & -> & Fd & L & Fi).
    exists (x :: ds), c, cs. simpl. rewrite D. auto.
  - exists [], x, w. repeat split; auto.
    apply letter_or_hyphen_spec. auto.
Qed.

Lemma forallb_accepts_ident w :
  forallb (accepts ident_char) w = forallb is_ident_char w.
Proof.
  induction w as [|c w IH]; cbn [forallb]; auto.
  now rewrite accepts_ident_char, IH.
Qed.

Lemma span_prerelease_ident s s' :
  Span prerelease_ident s s' <->
  exists w, s = w ++ s' /\ is_prerelease_ident w = true.
Proof.
  unfold is_prerelease_ident. split.
  - intros H. unfold prerelease_ident in H.
    apply span_or_inv in H. destruct H as [H|H];
      [|apply span_or_inv in H; destruct H as [H|H]].
    + assert (N : Span numeric s s') by (apply SpOrL; exact H).
      apply span_numeric in N. destruct N as [w [-> N]].
      exists w. now rewrite N.
    + assert (N : Span numeric s s') by (apply SpOrR; exact H).
      apply span_numeric in N. destruct N as [w [-> N]].
      exists w. now rewrite N.
    + cbn [Seq] in H. apply span_cat_inv in H. destruct H as [s1 [H1 H]].
      apply span_cat_inv in H. destruct H as [s2 [H2 H3]].
      apply span_star_class in H1. destruct H1 as [ds [-> Fd]].
      apply span_class_inv in H2. destruct H2 as [c [-> L]].
      apply span_star_class in H3. destruct H3 as [cs [-> Fi]].
      exists (ds ++ c :: cs). split; [now rewrite <- app_assoc|].
      apply orb_true_iff. right.
      rewrite forallb_accepts_ident in Fi.
      apply letter_or_hyphen_spec in L. destruct L as [Li Ld].
      rewrite forallb_app, existsb_app. simpl.
      rewrite (digits_are_ident_chars _ Fd), Li, Fi, Ld. simpl.
      now rewrite orb_true_r.
  - intros [w [-> H]]. apply orb_true_iff in H. destruct H as [N|H].
    + assert (S : Span numeric (w ++ s') s') by (apply span_numeric; eauto).
      unfold numeric in S. unfold prerelease_ident.
      apply span_or_inv in S. destruct S as [S|S].
      * now apply SpOrL.
      * now apply SpOrR, SpOrL.
    + apply andb_true_iff in H. destruct H as [F E].
      destruct (split_at_letter _ F E) as (ds & c & cs & -> & Fd & L & Fi).
      unfold prerelease_ident. apply SpOrR, SpOrR. cbn [Seq].
      rewrite <- app_assoc. simpl.
      eapply SpCat; [apply (@star_class_span true CDigit ds); exact Fd|].
      eapply SpCat; [constructor; exact L|].
      apply star_class_span. now rewrite forallb_accepts_ident.
Qed.

Lemma span_build_ident s s' :
  Span build_ident s s' <->
  exists w, s = w ++ s' /\ is_build_ident w = true.
Proof.
  unfold build_ident, Plus. split.
  - intros H. apply span_cat_inv in H. destruct H as [s1 [H1 H2]].
    apply span_class_inv in H1. destruct H1 as [c [-> A]].
    apply span_star_class in H2. destruct H2 as [cs [-> F]].
    exists (c :: cs). split; [reflexivity|].
    rewrite accepts_ident_char in A. rewrite forallb_accepts_ident in F.
    simpl. now rewrite A, F.
  - intros [[|c cs] [-> H]]; [discriminate|].
    simpl in H. apply andb_true_iff in H. destruct H as [A F].
    simpl. eapply SpCat.
    + constructor. now rewrite accepts_ident_char.
    + apply star_class_span. now rewrite forallb_accepts_ident.
Qed.

(** *** The version pattern and the grammar *)

(** [semver_regex] reads exactly the words of the semantic-version
    grammar. *)
Theorem span_semver s s' :
  Span semver_regex s s' <-> exists w, s = w ++ s' /\ semver_word w.
Proof.
  unfold semver_regex. cbn [Seq]. split.
  - intros H.
    apply span_cat_inv in H. destruct H as [s1 [H1 H]].
    apply span_cat_inv in H. destruct H as [s2 [D1 H]].
    apply span_cat_inv in H. destruct H as [s3 [H2 H]].
    apply span_cat_inv in H. destruct H as [s4 [D2 H]].
    apply span_cat_inv in H. destruct H as [s5 [H3 H]].
    apply span_cat_inv in H. destruct H as [s6 [P B]].
    apply span_group_inv, span_numeric in H1. destruct H1 as [major [-> N1]].
    apply span_char_inv in D1. subst s1.
    apply span_group_inv, span_numeric in H2. destruct H2 as [minor [-> N2]].
    apply span_char_inv in D2. subst s3.
    apply span_group_inv, span_numeric in H3. destruct H3 as [patch [-> N3]].
    apply (@span_optional _ _ span_prerelease_ident) in P.
    destruct P as [pre [P ->]].
    apply (@span_optional _ _ span_build_ident) in B.
    destruct B as [build [B ->]].
    exists (major ++ "."%char :: minor ++ "."%char :: patch ++ pre ++ build).
    split; [list_norm; reflexivity|]. now constructor.
  - intros [w [-> [major minor patch pre build N1 N2 N3 P B]]].
    list_norm.
    eapply SpCat; [apply SpGroup, span_numeric; eauto|].
    eapply SpCat; [constructor; apply Ascii.eqb_refl|].
    eapply SpCat; [apply SpGroup, span_numeric; eauto|].
    eapply SpCat; [constructor; apply Ascii.eqb_refl|].
    eapply SpCat; [apply SpGroup, span_numeric; eauto|].
    eapply SpCat.
    + apply (@span_optional _ _ span_prerelease_ident). eauto.
    + apply (@span_optional _ _ span_build_ident). exists build. split; auto.
Qed.

Lemma verify_semver_prefix s :
  verify_semver s = true <-> exists w t, s = w ++ t /\ semver_word w.
Proof.
  rewrite verify_semver_matches, matches_span. split.
  - intros [s' H]. apply span_semver in H. destruct H as [w [-> W]]. eauto.
  - intros [w [t [-> W]]]. exists t. apply span_semver. eauto.
Qed.

End GrammarFacts.

(** ** Facts about the captured groups *)

Module CaptureFacts.

Import ReFacts PatternFacts.

Lemma in_exec_cat r1 r2 st st' :
  In st' (exec (Cat r1 r2) st) ->
  exists st1, In st1 (exec r1 st) /\ In st' (exec r2 st1).
Proof. simpl. intros H. apply in_flat_map in H. exact H. Qed.

Lemma in_exec_group n r st st' :
  In st' (exec (Group n r) st) ->
  exists st1, In st1 (exec r st) /\
    st' = St (rest st1) ((n, consumed st st1) :: caps st1).
Proof.
  simpl. intros H. apply in_map_iff in H. destruct H as [st1 [E H]].
  exists st1. split; [exact H|now symmetry].
Qed.

Lemma consumed_prefix st st' w :
  rest st = w ++ rest st' -> consumed st st' = w.
Proof.
  unfold consumed. intros ->.
  rewrite length_app, Nat.add_sub, firstn_app, Nat.sub_diag, firstn_all.
  simpl. apply app_nil_r.
Qed.

Lemma rmatch_in r t st : rmatch r t = Some st -> In st (exec r (St t [])).
Proof.
  unfold rmatch. destruct (exec r (St t [])) as [|x l]; [discriminate|].
  intros E. injection E as ->. now left.
Qed.

(** Every tuple [findall] returns comes from a match at some place. *)
Lemma in_findall r : forall s k cs,
  In cs (findall_from r k s) ->
  exists t st, rmatch r t = Some st /\ cs = caps st.
Proof.
  induction s as [|c s IH]; intros k cs H.
  - destruct k; simpl in H; [|destruct H].
    destruct (rmatch r []) as [st|] eqn:E; [|destruct H].
    destruct H as [<-|[]]. eauto.
  - destruct k as [|k]; simpl in H; [|eauto].
    destruct (rmatch r (c :: s)) as [st|] eqn:E; [|eauto].
    destruct H as [<-|H]; eauto.
Qed.

Lemma in_findall2 r s v d :
  In (v, d) (findall2 r s) ->
  exists t st, In st (exec r (St t [])) /\
    v = group 1 (caps st) /\ d = group 2 (caps st).
Proof.
  unfold findall2. intros H. apply in_map_iff in H.
  destruct H as [cs [E H]]. injection E as <- <-.
  apply in_findall in H. destruct H as [t [st [M ->]]].
  exists t, st. split; [now apply rmatch_in|split; reflexivity].
Qed.

Lemma groupless_text s : groupless (Text s) = true.
Proof.
  induction s as [|c [|d s] IH]; try reflexivity.
  change (groupless (Text (c :: d :: s)))
    with (groupless (Class (CChar c)) && groupless (Text (d :: s))).
  now rewrite IH.
Qed.

(** The version group of the ordering pattern starts with a digit. *)
Lemma span_three_numbers s s' :
  Span three_numbers s s' ->
  exists c w, s = c :: w ++ s' /\ is_digit c = true.
Proof.
  unfold three_numbers, Seq, Plus, digit. intros H.
  apply span_cat_inv in H. destruct H as [s1 [H1 H2]].
  apply span_cat_inv in H1. destruct H1 as [s0 [H0 H1]].
  apply span_digit_inv in H0. destruct H0 as [c [-> D]].
  apply span_prefix in H1. destruct H1 as [w1 ->].
  apply span_prefix in H2. destruct H2 as [w2 ->].
  exists c, (w1 ++ w2). split; [|exact D]. now rewrite <- app_assoc.
Qed.

(** What the two groups of the ordering pattern hold after a match. *)
Lemma dated_groups st0 st :
  In st (exec dated_regex st0) ->
  (exists c w, group 1 (caps st) = c :: w /\ is_digit c = true) /\
  date_shape (group 2 (caps st)).
Proof.
  unfold dated_regex. cbn [Seq]. intros H.
  apply in_exec_cat in H. destruct H as [st1 [_ H]].
  apply in_exec_cat in H. destruct H as [st2 [H2 H]].
  apply in_exec_cat in H. destruct H as [st3 [H3 H4]].
  apply in_exec_group in H2. destruct H2 as [x [Hx ->]].
  apply in_exec_group in H4. destruct H4 as [y [Hy ->]].
  apply groupless_caps in H3; [|apply groupless_text].
  assert (Gy : caps y = caps st3) by (apply (groupless_caps date_regex); auto).
  simpl in H3. simpl. rewrite Gy, H3. simpl.
  apply exec_span in Hx. apply exec_span in Hy. split.
  - apply span_three_numbers in Hx. destruct Hx as [c [w [E D]]].
    exists c, w. split; [|exact D].
    apply consumed_prefix. rewrite E. reflexivity.
  - apply span_date in Hy. destruct Hy as [w [E D]].
    rewrite (@consumed_prefix _ _ _ E). exact D.
Qed.

Lemma dated_release_shape content v d :
  In (v, d) (dated_releases content) ->
  (exists c w, v = c :: w /\ is_digit c = true) /\ date_shape d.
Proof.
  intros H. apply in_findall2 in H. destruct H as [t [st [H [-> ->]]]].
  now apply dated_groups in H.
Qed.

Lemma date_shape_fields d : date_shape d -> exists t, date_fields d = Some t.
Proof.
  intros (y1 & y2 & y3 & y4 & m1 & m2 & d1 & d2 & -> & F).
  repeat match goal with
         | H : Forall _ (_ :: _) |- _ => inversion H; subst; clear H
         end.
  unfold date_fields. simpl forallb.
  repeat match goal with H : is_digit _ = true |- _ => rewrite H; clear H end.
  simpl. eauto.
Qed.

End CaptureFacts.

(** ** Facts about the program *)

Module ProgramFacts.

Import ReFacts PatternFacts CaptureFacts.

(** *** The monad *)

Lemma bind_return A B (m : io A) (f : A -> io B) out a out' r :
  m = (out, Return a) -> f a = (out', r) -> bind m f = (out ++ out', r).
Proof. intros -> E. unfold bind. now rewrite E. Qed.

Lemma bind_raise A B (m : io A) (f : A -> io B) out e :
  m = (out, Raise e) -> bind m f = (out, Raise e).
Proof. now intros ->. Qed.

Lemma result_bind A B (m : io A) (f : A -> io B) :
  result (bind m f) =
  match result m with
  | Return a => result (f a)
  | Raise e => Raise e
  end.
Proof.
  destruct m as [out [a|e]]; simpl; [|reflexivity].
  unfold result. now destruct (f a).
Qed.

(** *** The validator *)

Lemma bind_ret A B (a : A) (f : A -> io B) : bind (ret a) f = f a.
Proof. unfold bind, ret. now destruct (f a). Qed.

Lemma verify_sections_cons sec secs allowed label :
  lookup (lit "section") sec = Some label ->
  verify_sections (sec :: secs) allowed =
  if pyval_in label allowed then verify_sections secs allowed
  else ([[PStr (lit "Section issue:"); label]], Return false).
Proof.
  intros L. cbn [verify_sections]. unfold getitem. rewrite L, !bind_ret.
  destruct (pyval_in label allowed); reflexivity.
Qed.

Lemma verify_sections_result allowed : forall secs,
  keyed secs ->
  result (verify_sections secs allowed) = Return (labels_allowed secs allowed).
Proof.
  induction secs as [|sec secs IH]; intros K; [reflexivity|].
  inversion K as [|? ? K1 K2]; subst.
  destruct (lookup (lit "section") sec) as [label|] eqn:L; [|contradiction].
  rewrite (@verify_sections_cons _ _ _ _ L). cbn [labels_allowed forallb].
  rewrite L. destruct (pyval_in label allowed); [now apply IH|reflexivity].
Qed.

Lemma verify_sections_offender allowed bad label rest : forall good,
  labels_allowed good allowed = true ->
  lookup (lit "section") bad = Some label ->
  pyval_in label allowed = false ->
  verify_sections (good ++ bad :: rest) allowed =
  ([[PStr (lit "Section issue:"); label]], Return false).
Proof.
  induction good as [|sec good IH]; intros G L P.
  - cbn [app]. rewrite (@verify_sections_cons _ _ _ _ L), P. reflexivity.
  - cbn [labels_allowed forallb] in G. apply andb_true_iff in G.
    destruct G as [G1 G2].
    destruct (lookup (lit "section") sec) as [l|] eqn:E; [|discriminate].
    cbn [app]. rewrite (@verify_sections_cons _ _ _ _ E), G1. now apply IH.
Qed.

Lemma labels_allowed_offender allowed bad label rest good :
  lookup (lit "section") bad = Some label ->
  pyval_in label allowed = false ->
  labels_allowed (good ++ bad :: rest) allowed = false.
Proof.
  intros L P. unfold labels_allowed. rewrite forallb_app. simpl.
  rewrite L, P. simpl. apply andb_false_r.
Qed.

(** [verify_version] once the section check has returned. *)
Lemma verify_version_after v allowed out ok :
  verify_sections (sections v) allowed = (out, Return ok) ->
  verify_version v allowed =
  (out,
   Return ((if verify_semver (version v) then []
            else [semver_message (version v)])
           ++ (if verify_date (date v) then []
               else [date_message (version v)])
           ++ (if ok then [] else [section_message (version v) allowed]))).
Proof.
  intros E. unfold verify_version. rewrite E. unfold verify_links.
  simpl. rewrite app_nil_r.
  destruct (verify_semver (version v)), (verify_date (date v)), ok;
    reflexivity.
Qed.

Lemma verify_version_keyed v allowed :
  keyed (sections v) ->
  exists out,
    verify_version v allowed = (out, Return (expected_messages v allowed)).
Proof.
  intros K. pose proof (verify_sections_result allowed K) as R.
  destruct (verify_sections (sections v) allowed) as [out r] eqn:E.
  unfold result in R. simpl in R. subst r.
  exists out. now apply verify_version_after.
Qed.

(** *** The extractor *)

Lemma parse_sections_cons allowed title changes found parsed :
  parse_sections allowed ((title, changes) :: found) parsed =
  if Py.mem (Py.strip title) allowed
  then parse_sections allowed found (parsed ++ [section_dict (title, changes)])
  else ([[PStr yellow; PStr (lit "Not allowed section:"); PStr title;
          PStr plain]], Return None).
Proof.
  cbn [parse_sections]. destruct (Py.mem (Py.strip title) allowed);
    reflexivity.
Qed.

Lemma parse_sections_spec allowed : forall found parsed,
  exists out,
    parse_sections allowed found parsed = (out, Return None) \/
    parse_sections allowed found parsed =
    (out, Return (Some (parsed ++ map section_dict found))).
Proof.
  induction found as [|[title changes] found IH]; intros parsed.
  - exists []. right. cbn [parse_sections map]. unfold ret.
    now rewrite app_nil_r.
  - rewrite parse_sections_cons.
    destruct (Py.mem (Py.strip title) allowed).
    + destruct (IH (parsed ++ [section_dict (title, changes)])) as [out [E|E]];
        exists out; [left|right]; rewrite E; auto.
      cbn [map]. now rewrite <- app_assoc.
    + eexists. left. reflexivity.
Qed.

Lemma parse_versions_spec content allowed : forall versions changelog,
  Forall (whole_document content) changelog ->
  exists out releases,
    parse_versions content allowed versions changelog
    = (out, Return releases) /\
    Forall (whole_document content) releases.
Proof.
  induction versions as [|[v d] versions IH]; intros changelog F; simpl.
  - exists [], changelog. split; [reflexivity|exact F].
  - destruct (parse_sections_spec allowed (findall2 section_regex content) [])
      as [out [E|E]]; rewrite E; simpl.
    + exists (out ++ []), []. split; [reflexivity|constructor].
    + match goal with
      | |- context [parse_versions _ _ _ ?c] =>
          destruct (IH c) as [out' [releases [E' F']]]
      end.
      * apply Forall_app. split; [exact F|].
        constructor; [|constructor]. reflexivity.
      * rewrite E'. exists (out ++ out'), releases. split; auto.
Qed.

Lemma parse_changelog_spec content allowed :
  exists out releases,
    parse_changelog content allowed = (out, Return releases) /\
    Forall (whole_document content) releases.
Proof. unfold parse_changelog. apply parse_versions_spec. constructor. Qed.

(** *** The ordering check *)

Lemma lt_asym : forall a b, Py.lt a b = true -> Py.lt b a = false.
Proof.
  induction a as [|x a IH]; intros [|y b] H; simpl in *; try discriminate;
    auto.
  destruct (Nat.ltb (code x) (code y)) eqn:L1.
  - apply Nat.ltb_lt in L1.
    destruct (Nat.ltb (code y) (code x)) eqn:L2; auto.
    apply Nat.ltb_lt in L2. lia.
  - destruct (Nat.ltb (code y) (code x)) eqn:L2; [discriminate|auto].
Qed.

Lemma strptime_calendar d :
  calendar_date d = true ->
  exists t, date_fields d = Some t /\ strptime d = ([], Return t).
Proof.
  unfold calendar_date, strptime.
  destruct (date_fields d) as [t|]; [|discriminate].
  intros ->. eauto.
Qed.

Lemma check_pair_result (matches : list (str * str)) i :
  calendar_date (snd (nth i matches ([], []))) = true ->
  calendar_date (snd (nth (i - 1) matches ([], []))) = true ->
  result (check_pair matches i) =
  Return (in_order (nth (i - 1) matches ([], [])) (nth i matches ([], []))).
Proof.
  intros C1 C2. unfold check_pair, in_order, later.
  destruct (strptime_calendar _ C1) as [t1 [F1 S1]].
  destruct (strptime_calendar _ C2) as [t2 [F2 S2]].
  rewrite S1, S2, F1, F2. simpl. unfold Py.ge.
  destruct (Py.lt _ _); simpl; [|reflexivity].
  destruct (datetime_gt t1 t2); reflexivity.
Qed.

Lemma check_order_adjacent : forall (t pre : list (str * str)) (a : str * str),
  forallb calendar_date (map snd (a :: t)) = true ->
  result (check_order (pre ++ a :: t) (seq (S (length pre)) (length t)))
  = Return (all_adjacent in_order (a :: t)).
Proof.
  induction t as [|b t IH]; intros pre a C; [reflexivity|].
  simpl in C. apply andb_true_iff in C. destruct C as [Ca C].
  pose proof C as Cb. simpl in Cb. apply andb_true_iff in Cb.
  destruct Cb as [Cb _].
  cbn [length seq check_order]. rewrite result_bind.
  assert (Ea : nth (S (length pre) - 1) (pre ++ a :: b :: t) ([], []) = a).
  { simpl. rewrite Nat.sub_0_r. apply nth_middle. }
  assert (Eb : nth (S (length pre)) (pre ++ a :: b :: t) ([], []) = b).
  { replace (pre ++ a :: b :: t) with ((pre ++ [a]) ++ b :: t)
      by (now rewrite <- app_assoc).
    replace (S (length pre)) with (length (pre ++ [a]))
      by (rewrite length_app; simpl; lia).
    apply nth_middle. }
  rewrite check_pair_result; rewrite ?Ea, ?Eb; auto.
  cbn [all_adjacent]. destruct (in_order a b); [|reflexivity].
  replace (pre ++ a :: b :: t) with ((pre ++ [a]) ++ b :: t)
    by (now rewrite <- app_assoc).
  replace (S (S (length pre))) with (S (length (pre ++ [a])))
    by (rewrite length_app; simpl; lia).
  now apply IH.
Qed.

(** The scan of a document that passes the earlier checks and whose
    dated headings all carry dates of the calendar. *)
Lemma scan_calendar_dates content :
  earlier_checks_pass content ->
  forallb calendar_date (map snd (dated_releases content)) = true ->
  result (verify_changelog_format content)
  = Return (all_adjacent in_order (dated_releases content)).
Proof.
  intros (T & U & L & N) C. unfold verify_changelog_format.
  rewrite T, U. simpl. rewrite result_bind, L. simpl.
  fold (dated_releases content).
  destruct (Nat.ltb_spec (length (dated_releases content)) 2) as [?|_];
    [lia|].
  destruct (dated_releases content) as [|a t]; [simpl in N; lia|].
  replace (length (a :: t) - 1) with (length t) by (simpl; lia).
  apply (check_order_adjacent t [] a C).
Qed.

End ProgramFacts.

(** ** Facts about text of any code points *)

Module WideFacts.

(** *** One character *)

Lemma N_of_ascii_inj x c : N_of_ascii x = N_of_ascii c -> x = c.
Proof.
  intros E. rewrite <- (ascii_N_embedding x), <- (ascii_N_embedding c).
  now rewrite E.
Qed.

Lemma eqb_widen x c : N.eqb (N_of_ascii x) (N_of_ascii c) = Ascii.eqb x c.
Proof.
  destruct (Ascii.eqb_spec x c) as [->|D].
  - apply N.eqb_refl.
  - apply N.eqb_neq. intros E. now apply D, N_of_ascii_inj.
Qed.

Lemma leb_widen x c :
  N.leb (N_of_ascii x) (N_of_ascii c) = Nat.leb (code x) (code c).
Proof.
  unfold code, nat_of_ascii.
  destruct (N.leb_spec (N_of_ascii x) (N_of_ascii c));
    destruct (Nat.leb_spec (N.to_nat (N_of_ascii x))
                           (N.to_nat (N_of_ascii c))); auto; lia.
Qed.

(** Below 256 the decimal digits are ['0'] to ['9']. *)
Lemma is_decimal_widen c : Wide.is_decimal (N_of_ascii c) = is_digit c.
Proof. destruct c as [[] [] [] [] [] [] [] []]; vm_compute; reflexivity. Qed.

Lemma accepts_widen c : forall k,
  Wide.accepts k (N_of_ascii c) = accepts k c.
Proof.
  induction k as [x| | | |lo hi|a IHa b IHb]; cbn [Wide.accepts accepts].
  - apply eqb_widen.
  - apply is_decimal_widen.
  - now rewrite eqb_widen.
  - reflexivity.
  - unfold in_range. now rewrite !leb_widen.
  - now rewrite IHa, IHb.
Qed.

(** *** The matcher *)

Lemma flat_map_commute (A B A' B' : Type) (f : A -> A') (h : B -> B')
    (g : A -> list B) (g' : A' -> list B') :
  (forall x, g' (f x) = map h (g x)) ->
  forall l, flat_map g' (map f l) = map h (flat_map g l).
Proof.
  intros E. induction l as [|x l IH]; [reflexivity|].
  cbn [map flat_map]. now rewrite E, IH, map_app.
Qed.

Lemma filter_commute (A A' : Type) (f : A -> A') (p : A -> bool)
    (p' : A' -> bool) :
  (forall x, p' (f x) = p x) ->
  forall l, filter p' (map f l) = map f (filter p l).
Proof.
  intros E. induction l as [|x l IH]; [reflexivity|].
  cbn [map filter]. rewrite E, IH. now destruct (p x).
Qed.

Lemma length_widen s : length (Wide.widen s) = length s.
Proof. apply length_map. Qed.

Lemma advances_widen st st' :
  Wide.advances (widen_state st) (widen_state st') = advances st st'.
Proof.
  unfold Wide.advances, advances, widen_state. cbn [Wide.rest].
  now rewrite !length_widen.
Qed.

Lemma consumed_widen st st' :
  Wide.consumed (widen_state st) (widen_state st')
  = Wide.widen (consumed st st').
Proof.
  unfold Wide.consumed, consumed, widen_state, Wide.widen. cbn [Wide.rest].
  now rewrite !length_map, firstn_map.
Qed.

Lemma iter_widen step step' g :
  (forall st, step' (widen_state st) = map widen_state (step st)) ->
  forall fuel st,
    Wide.iter step' g fuel (widen_state st)
    = map widen_state (iter step g fuel st).
Proof.
  intros E. induction fuel as [|f IH]; intros st; [reflexivity|].
  cbn [Wide.iter iter]. rewrite E.
  rewrite (filter_commute widen_state (advances st)
             (Wide.advances (widen_state st)) (advances_widen st)).
  rewrite (flat_map_commute widen_state widen_state
             (iter step g f) (Wide.iter step' g f) IH).
  destruct g; [now rewrite map_app|reflexivity].
Qed.

(** On a text of code points below 256 the matcher for any text runs as
    [Re.exec] does. *)
Lemma exec_widen : forall r st,
  Wide.exec r (widen_state st) = map widen_state (exec r st).
Proof.
  induction r as [|k|r1 IH1 r2 IH2|r1 IH1 r2 IH2|g r IH|n r IH|r IH| |];
    intros st; cbn [Wide.exec exec].
  - reflexivity.
  - change (Wide.rest (widen_state st)) with (Wide.widen (rest st)).
    change (Wide.caps (widen_state st)) with (widen_caps (caps st)).
    destruct (rest st) as [|c s']; [reflexivity|].
    cbn [Wide.widen map]. rewrite accepts_widen.
    now destruct (accepts k c).
  - rewrite IH1. now apply flat_map_commute.
  - now rewrite IH1, IH2, map_app.
  - change (Wide.rest (widen_state st)) with (Wide.widen (rest st)).
    rewrite length_widen. now apply iter_widen.
  - rewrite IH, !map_map. apply map_ext. intros st'.
    change (widen_state (St (rest st') ((n, consumed st st') :: caps st')))
      with (Wide.St (Wide.widen (rest st'))
                    ((n, Wide.widen (consumed st st'))
                     :: widen_caps (caps st'))).
    rewrite <- consumed_widen. reflexivity.
  - rewrite IH. destruct (exec r st) as [|st' l]; reflexivity.
  - change (Wide.rest (widen_state st)) with (Wide.widen (rest st)).
    now destruct (rest st).
  - change (Wide.rest (widen_state st)) with (Wide.widen (rest st)).
    destruct (rest st) as [|c [|d s']]; try reflexivity.
    cbn [Wide.widen map]. rewrite eqb_widen.
    now destruct (Ascii.eqb c newline).
Qed.

Lemma matches_widen r s : Wide.matches r (Wide.widen s) = matches r s.
Proof.
  unfold Wide.matches, Wide.rmatch, matches, rmatch.
  change (Wide.St (Wide.widen s) []) with (widen_state (St s [])).
  rewrite exec_widen. now destruct (exec r (St s [])).
Qed.

Lemma verify_semver_widen s :
  Wide.verify_semver (Wide.widen s) = verify_semver s.
Proof. unfold Wide.verify_semver, verify_semver. now rewrite matches_widen. Qed.

(** *** Words of the grammar *)

Lemma N_of_ascii_below c : N_of_ascii c <> 1634%N.
Proof. pose proof (N_ascii_bounded c). lia. Qed.

(** A word of the grammar has two characters or more, and a text whose
    second character is beyond code point 255 starts with none. *)
Lemma no_word_before_foreign_digit w t a rest' :
  semver_word w -> a :: 1634%N :: rest' <> Wide.widen w ++ t.
Proof.
  intros W E. destruct W as [major minor patch pre build N1 _ _ _ _].
  destruct major as [|c1 [|c2 major]]; [discriminate| |];
    cbn [Wide.widen map app] in E.
  - injection E as _ E _. discriminate.
  - injection E as _ E _. symmetry in E. now apply N_of_ascii_below in E.
Qed.

End WideFacts.

Import WideFacts.

(** ** The claims *)

Import ReFacts PatternFacts GrammarFacts CaptureFacts ProgramFacts.

(** C1. After the earlier checks the scan has to return false when some
    dated release is not below the one listed before it, and true when
    every adjacent pair obeys the ordering rule. Both fail on a date that
    is no date of the calendar. In the first document 2.0.0 is listed below
    1.0.0, so the scan has to return false; in the second the one pair is
    in order (1.0.0 is below 2.0.0 and its date is not later), so the scan
    has to return true. Each passes the earlier checks, and on each the
    scan returns nothing: [strptime] raises [ValueError] at 30 February. *)
Theorem ordering_check_raises_on_february_30 :
  (earlier_checks_pass february_30_ascending_document /\
   dated_releases february_30_ascending_document
   = [(lit "1.0.0", lit "2024-03-01"); (lit "2.0.0", lit "2024-02-30")] /\
   Py.lt (lit "2.0.0") (lit "1.0.0") = false /\
   result (verify_changelog_format february_30_ascending_document)
   = Raise ValueError) /\
  (earlier_checks_pass february_30_document /\
   dated_releases february_30_document
   = [(lit "2.0.0", lit "2024-03-01"); (lit "1.0.0", lit "2024-02-30")] /\
   in_order (lit "2.0.0", lit "2024-03-01") (lit "1.0.0", lit "2024-02-30")
   = true /\
   result (verify_changelog_format february_30_document) = Raise ValueError).
Proof. repeat split; vm_compute; reflexivity. Qed.

(** C2. The scan has to return a boolean on every text. On the document
    with a heading dated in month 13, a date that has the digit shape, it
    raises [ValueError] instead. *)
Theorem scan_raises_on_month_13 :
  verify_date (lit "2024-13-01") = true /\
  matches heading_regex (lit "## [2.0.0] - 2024-13-01") = true /\
  verify_changelog_format month_13_document = ([], Raise ValueError).
Proof. repeat split; vm_compute; reflexivity. Qed.

(** C3. [parse_changelog] always returns, and every release record it
    returns carries the sections found by one scan of the whole document;
    so any two records carry equal sections lists. *)
Theorem releases_share_document_sections content allowed :
  exists out releases,
    parse_changelog content allowed = (out, Return releases) /\
    (forall r, In r releases ->
       lookup (lit "sections") r
       = Some (PList (map PDict (document_sections content)))) /\
    (forall r1 r2, In r1 releases -> In r2 releases ->
       lookup (lit "sections") r1 = lookup (lit "sections") r2).
Proof.
  destruct (parse_changelog_spec content allowed) as [out [releases [E F]]].
  exists out, releases. split; [exact E|].
  rewrite Forall_forall in F. split.
  - exact F.
  - intros r1 r2 H1 H2. rewrite (F r1 H1), (F r2 H2). reflexivity.
Qed.

(** In the round-trip document [### Added] stands under 2.0.0 and
    [### Fixed] under 1.0.0; both releases are returned with both. *)
Lemma releases_share_document_sections_witness :
  exists out r1 r2,
    parse_changelog well_ordered_document allowed_labels
    = (out, Return [r1; r2]) /\
    lookup (lit "sections") r1 = lookup (lit "sections") r2.
Proof.
  destruct (releases_share_document_sections well_ordered_document
              allowed_labels) as (out & releases & E & _ & H).
  assert (L : length releases = 2).
  { apply (f_equal (fun p => match result p with
                             | Return l => length l
                             | Raise _ => 0
                             end)) in E.
    vm_compute in E. now symmetry. }
  destruct releases as [|r1 [|r2 [|r3 releases]]]; try discriminate L.
  exists out, r1, r2. split; [exact E|].
  apply H; simpl; auto.
Defined.

(** C4. A document with a line [### Security] has to yield no release. The
    example document has that line, the label is not allowed, and
    [parse_changelog] returns both releases: the section pattern reads the
    heading as the body of the [### Added] section above it. *)
Theorem security_heading_not_rejected :
  In (lit "### Security") (Py.split [newline] security_document) /\
  Py.mem (Py.strip (lit "Security")) allowed_labels = false /\
  findall2 section_regex security_document
  = [(lit "Added",
      Py.join [newline]
        [lit "### Security"; lit "- a fix"; []; lit "## [1.0.0] - 2024-01-01"]);
     (lit "Fixed", lit "- an entry" ++ [newline])] /\
  exists releases,
    parse_changelog security_document allowed_labels = ([], Return releases) /\
    map (lookup (lit "version")) releases
    = [Some (PStr (lit "1.1.0")); Some (PStr (lit "1.0.0"))].
Proof.
  split; [|split; [|split]].
  - vm_compute. tauto.
  - vm_compute. reflexivity.
  - vm_compute. reflexivity.
  - exists (match result (parse_changelog security_document allowed_labels) with
            | Return l => l
            | Raise _ => []
            end).
    split; vm_compute; reflexivity.
Qed.

(** C5. [verify_semver] does not accept exactly the strings that start
    with a word of the semantic-version grammar. It accepts the version
    made of the digit [1], the Arabic-Indic digit two (U+0662) and
    [.0.0], which starts with no word of the grammar, because [\d] accepts
    the decimal digits of every script. And it rejects the Arabic-Indic
    digit two followed by [.0.0], so it does not read the digits of other
    scripts as integers either. *)
Theorem verify_semver_accepts_foreign_digit :
  Wide.verify_semver foreign_digit_version = true /\
  (forall w t, semver_word w ->
     foreign_digit_version <> Wide.widen w ++ t) /\
  Wide.verify_semver foreign_major_version = false.
Proof.
  split; [vm_compute; reflexivity|]. split; [|vm_compute; reflexivity].
  intros w t W. now apply no_word_before_foreign_digit.
Qed.

(** C6 as stated fails: in the round-trip document the upper release is
    dated later than the lower one and the scan succeeds. *)
Lemma later_upper_release_passes :
  dated_releases well_ordered_document
  = [(lit "2.0.0", lit "2024-01-01"); (lit "1.0.0", lit "2023-01-01")] /\
  later (lit "2024-01-01") (lit "2023-01-01") = true /\
  verify_changelog_format well_ordered_document = ([], Return true).
Proof. repeat split; vm_compute; reflexivity. Qed.

(** C6, amended. For a document that passes the title, Unreleased and
    heading checks and has exactly two dated releases [A] above [B], both
    dated in the calendar: the scan returns false whenever [A]'s version is
    below [B]'s, and whenever [B]'s date is later than [A]'s; it returns
    true when [B]'s version is below [A]'s and [B]'s date is not later. *)
Theorem two_releases_order content A B :
  search title_regex content = true ->
  search unreleased_regex content = true ->
  result (check_lines (Py.split [newline] content)) = Return true ->
  dated_releases content = [A; B] ->
  calendar_date (snd A) = true -> calendar_date (snd B) = true ->
  (Py.lt (fst A) (fst B) = true ->
   result (verify_changelog_format content) = Return false) /\
  (later (snd B) (snd A) = true ->
   result (verify_changelog_format content) = Return false) /\
  (Py.lt (fst B) (fst A) = true -> later (snd B) (snd A) = false ->
   result (verify_changelog_format content) = Return true).
Proof.
  intros T U L E CA CB.
  assert (R : result (verify_changelog_format content)
              = Return (in_order A B)).
  { rewrite scan_calendar_dates.
    - rewrite E. cbn [all_adjacent]. now rewrite andb_true_r.
    - repeat split; auto. rewrite E. apply le_n.
    - rewrite E. cbn [map forallb]. now rewrite CA, CB. }
  rewrite R. unfold in_order. repeat split.
  - intros V. now rewrite (lt_asym _ _ V).
  - intros D. rewrite D. now rewrite andb_false_r.
  - intros V D. now rewrite V, D.
Qed.

Lemma two_releases_order_witness :
  result (verify_changelog_format dates_exchanged_document) = Return false.
Proof.
  apply (proj1 (proj2
    (@two_releases_order dates_exchanged_document
       (lit "2.0.0", lit "2023-01-01") (lit "1.0.0", lit "2024-01-01")
       ltac:(vm_compute; reflexivity) ltac:(vm_compute; reflexivity)
       ltac:(vm_compute; reflexivity) ltac:(vm_compute; reflexivity)
       ltac:(vm_compute; reflexivity) ltac:(vm_compute; reflexivity)))).
  vm_compute. reflexivity.
Defined.

(** C7 as stated fails: the validator has no exemption, a release whose
    version token is [Unreleased] gets the version-grammar message. *)
Lemma unreleased_release_gets_semver_message :
  version unreleased_release = lit "Unreleased" /\
  verify_version unreleased_release allowed_labels
  = ([], Return [lit "Version Unreleased is not a valid semantic version."]).
Proof. split; vm_compute; reflexivity. Qed.

(** C7, amended. The exemption is the scanner's alone: the heading check
    skips every line that contains [[Unreleased]], and no heading the
    ordering check collects has the version [Unreleased]. The validator
    treats [Unreleased] as any other version token: it fails the grammar
    check and its message comes first. *)
Theorem unreleased_exempt_in_scanner_only :
  (forall line lines,
     Py.contains (lit "[Unreleased]") line = true ->
     opens_release line = false /\
     check_lines (line :: lines) = check_lines lines) /\
  (forall content v d,
     In (v, d) (dated_releases content) -> v <> lit "Unreleased") /\
  verify_semver (lit "Unreleased") = false /\
  (forall d secs allowed, keyed secs ->
     exists out others,
       verify_version (mkVersion (lit "Unreleased") d secs) allowed
       = (out, Return (semver_message (lit "Unreleased") :: others))).
Proof.
  split; [|split; [|split]].
  - intros line lines H.
    assert (O : opens_release line = false).
    { unfold opens_release. rewrite H. cbn [negb].
      now rewrite andb_false_r. }
    split; [exact O|]. cbn [check_lines]. now rewrite O.
  - intros content v d H E.
    apply dated_release_shape in H. destruct H as [[c [w [-> D]]] _].
    injection E as -> _. vm_compute in D. discriminate.
  - vm_compute. reflexivity.
  - intros d secs allowed K.
    destruct (@verify_version_keyed (mkVersion (lit "Unreleased") d secs)
                allowed K) as [out E].
    exists out. eexists. rewrite E. unfold expected_messages.
    cbn [version _version].
    replace (verify_semver (lit "Unreleased")) with false
      by (vm_compute; reflexivity).
    reflexivity.
Qed.

Lemma unreleased_exempt_in_scanner_only_witness :
  check_lines [lit "## [Unreleased]"; lit "## [1.0.0]"]
  = check_lines [lit "## [1.0.0]"] /\
  exists out others,
    verify_version unreleased_release allowed_labels
    = (out, Return (semver_message (lit "Unreleased") :: others)).
Proof.
  destruct unreleased_exempt_in_scanner_only as (S1 & _ & _ & V). split.
  - apply S1. vm_compute. reflexivity.
  - apply V. constructor.
Defined.

(** C8 as stated fails: the message returned for the release with a
    [Security] section lists the allowed labels and does not name
    [Security]; the label goes to the output of [print]. *)
Lemma security_label_not_in_message :
  verify_version security_release allowed_labels
  = ([[PStr (lit "Section issue:"); PStr (lit "Security")]],
     Return [lit "Version 1.0.0 contains an invalid section. Valid sections are: Added, Changed, Fixed, Deprecated, Removed"]) /\
  Py.contains (lit "Security")
    (lit "Version 1.0.0 contains an invalid section. Valid sections are: Added, Changed, Fixed, Deprecated, Removed")
  = false.
Proof. split; vm_compute; reflexivity. Qed.

(** C8, amended. When the sections of a release are [good ++ bad :: rest],
    the labels of [good] allowed and the label of [bad] not: the validator
    prints one line, [Section issue:] with the label of [bad] (the first
    offender, whatever [rest] holds), and returns, after the version and
    date messages if any, one section message, which names the version and
    lists the allowed labels. *)
Theorem first_offender_is_printed v allowed good bad rest label :
  sections v = good ++ bad :: rest ->
  labels_allowed good allowed = true ->
  lookup (lit "section") bad = Some label ->
  pyval_in label allowed = false ->
  verify_version v allowed
  = ([[PStr (lit "Section issue:"); label]],
     Return ((if verify_semver (version v) then []
              else [semver_message (version v)])
             ++ (if verify_date (date v) then []
                 else [date_message (version v)])
             ++ [lit "Version " ++ version v
                 ++ lit " contains an invalid section. Valid sections are: "
                 ++ Py.join (lit ", ") allowed])).
Proof.
  intros S G L P.
  rewrite (@verify_version_after v allowed
             [[PStr (lit "Section issue:"); label]] false).
  - unfold section_message. repeat f_equal.
  - rewrite S. now apply verify_sections_offender.
Qed.

Lemma first_offender_is_printed_witness :
  printed (verify_version security_release allowed_labels)
  = [[PStr (lit "Section issue:"); PStr (lit "Security")]].
Proof.
  rewrite (@first_offender_is_printed security_release allowed_labels []
             [(lit "section", PStr (lit "Security"));
              (lit "changes", PList [PStr (lit "- a fix")])]
             [] (PStr (lit "Security"))
             eq_refl eq_refl eq_refl eq_refl).
  reflexivity.
Defined.

(** C9. [verify_date] accepts exactly the strings that are not empty and
    whose first ten characters have the digit shape; ["2024-13-45"] is
    accepted; what follows the first ten characters does not matter. *)
Theorem verify_date_checks_digit_shape :
  (forall s, verify_date s = true <-> s <> [] /\ date_shape (firstn 10 s)) /\
  verify_date (lit "2024-13-45") = true /\
  (forall s, verify_date s = verify_date (firstn 10 s)).
Proof.
  assert (M : forall s, verify_date s = true <->
                        s <> [] /\ date_shape (firstn 10 s)).
  { intros [|c s].
    - split; [discriminate|]. intros [H _]. now elim H.
    - assert (E : verify_date (c :: s) = matches date_regex (c :: s)).
      { unfold verify_date. cbn [length Nat.ltb Nat.leb orb].
        now destruct (matches date_regex (c :: s)). }
      rewrite E, matches_date. split; [|tauto].
      intros D. split; [discriminate|exact D]. }
  split; [exact M|]. split; [vm_compute; reflexivity|].
  intros s.
  assert (I : verify_date s = true <-> verify_date (firstn 10 s) = true).
  { rewrite !M, firstn_firstn, Nat.min_id. split.
    - intros [N D]. split; [|exact D]. destruct s; [now elim N|discriminate].
    - intros [N D]. split; [|exact D]. intros ->. now elim N. }
  destruct (verify_date s), (verify_date (firstn 10 s)); auto.
  - symmetry. now apply I.
  - now apply I.
Qed.

Lemma verify_date_checks_digit_shape_witness :
  lit "2024-13-45" <> [] /\ date_shape (firstn 10 (lit "2024-13-45")).
Proof.
  apply (proj1 (proj1 verify_date_checks_digit_shape (lit "2024-13-45"))).
  vm_compute. reflexivity.
Defined.

(** C10. For a release whose sections all have their ['section'] key,
    [verify_version] raises nothing and returns one message for each check
    that fails, whatever the other checks say, in the order version, date,
    sections; the link check accepts everything and its message is never
    among them. *)
Theorem verify_version_reports_every_failed_check v allowed :
  keyed (sections v) ->
  (exists out,
     verify_version v allowed
     = (out,
        Return ((if verify_semver (version v) then []
                 else [semver_message (version v)])
                ++ (if verify_date (date v) then []
                    else [date_message (version v)])
                ++ (if labels_allowed (sections v) allowed then []
                    else [section_message (version v) allowed])))) /\
  (forall errors,
     result (verify_version v allowed) = Return errors ->
     ~ In (link_message (version v)) errors) /\
  (forall b, verify_links b = true).
Proof.
  intros K. destruct (@verify_version_keyed v allowed K) as [out E].
  split; [exists out; exact E|]. split; [|reflexivity].
  intros errors R. rewrite E in R. injection R as <-.
  intros H.
  assert (D : forall tail : str,
            lit "Version " ++ version v ++ tail = link_message (version v) ->
            tail = lit " is linked, but no link reference found in the changelog.").
  { intros tail T. unfold link_message in T.
    now apply app_inv_head, app_inv_head in T. }
  apply in_app_or in H. destruct H as [H|H]; [|apply in_app_or in H;
                                                destruct H as [H|H]].
  - destruct (verify_semver (version v)); [destruct H|].
    destruct H as [H|[]]. apply D in H. discriminate H.
  - destruct (verify_date (date v)); [destruct H|].
    destruct H as [H|[]]. apply D in H. discriminate H.
  - destruct (labels_allowed (sections v) allowed); [destruct H|].
    destruct H as [H|[]]. unfold section_message in H.
    apply D in H. vm_compute in H.
    discriminate H.
Qed.

Lemma verify_version_reports_every_failed_check_witness :
  exists out,
    verify_version security_release allowed_labels
    = (out,
       Return [section_message (version security_release) allowed_labels]).
Proof.
  apply (proj1 (@verify_version_reports_every_failed_check
                  security_release allowed_labels
                  ltac:(repeat constructor; discriminate))).
Defined.

(** Without its key a section makes the validator raise [KeyError]: the
    condition of C10 on the sections is needed. *)
Lemma verify_version_raises_without_key :
  verify_version unlabelled_release allowed_labels = ([], Raise KeyError).
Proof. vm_compute. reflexivity. Qed.

(** ** Further properties *)

Lemma all_adjacent_nth (A : Type) (p : A -> A -> bool) (d : A) :
  forall l,
    all_adjacent p l = true <->
    forall i, 1 <= i < length l -> p (nth (i - 1) l d) (nth i l d) = true.
Proof.
  induction l as [|a [|b t] IH].
  - split; [|reflexivity]. simpl. intros _ i H. lia.
  - split; [|reflexivity]. simpl. intros _ i H. lia.
  - cbn [all_adjacent]. rewrite andb_true_iff, IH. split.
    + intros [P Q] [|[|i]] H; [simpl in H; lia|exact P|].
      specialize (Q (S i)). simpl in Q, H. rewrite Nat.sub_0_r in Q.
      simpl. apply Q. lia.
    + intros H. split.
      * apply (H 1). simpl. lia.
      * intros i Hi. specialize (H (S i)).
        destruct i as [|i]; [lia|]. simpl in H, Hi. simpl.
        rewrite Nat.sub_0_r. apply H. lia.
Qed.

(** X1. For a document that passes the earlier checks and whose dated
    headings all carry dates of the calendar, the scan returns true when
    every release is below the one listed before it in version and not
    later in date, and false otherwise. *)
Theorem scan_applies_ordering_rule content :
  earlier_checks_pass content ->
  forallb calendar_date (map snd (dated_releases content)) = true ->
  result (verify_changelog_format content)
  = Return (all_adjacent in_order (dated_releases content)) /\
  (all_adjacent in_order (dated_releases content) = true <->
   forall i, 1 <= i < length (dated_releases content) ->
     in_order (nth (i - 1) (dated_releases content) ([], []))
              (nth i (dated_releases content) ([], [])) = true).
Proof.
  intros E C. split.
  - now apply scan_calendar_dates.
  - apply all_adjacent_nth.
Qed.

Lemma scan_applies_ordering_rule_witness :
  result (verify_changelog_format well_ordered_document) = Return true.
Proof.
  rewrite (proj1 (@scan_applies_ordering_rule well_ordered_document
                    ltac:(repeat split; vm_compute; reflexivity)
                    ltac:(vm_compute; reflexivity))).
  vm_compute. reflexivity.
Defined.

Lemma parse_sections_rejects allowed title changes : forall found parsed,
  In (title, changes) found ->
  Py.mem (Py.strip title) allowed = false ->
  result (parse_sections allowed found parsed) = Return None.
Proof.
  induction found as [|[t c] found IH]; intros parsed H M; [destruct H|].
  rewrite parse_sections_cons.
  destruct (Py.mem (Py.strip t) allowed) eqn:E; [|reflexivity].
  destruct H as [H|H]; [|now apply IH].
  injection H as -> ->. congruence.
Qed.

(** X2. When the scan for sections finds a label that is not allowed,
    [parse_changelog] returns the empty list, however many release
    headings the document has. *)
Theorem found_label_not_allowed_empties_result content allowed title changes :
  In (title, changes) (findall2 section_regex content) ->
  Py.mem (Py.strip title) allowed = false ->
  result (parse_changelog content allowed) = Return [].
Proof.
  intros H M. unfold parse_changelog.
  destruct (findall2 release_regex content) as [|[v d] versions];
    [reflexivity|].
  cbn [parse_versions]. rewrite result_bind.
  now rewrite (@parse_sections_rejects allowed title changes _ [] H M).
Qed.

Lemma found_label_not_allowed_empties_result_witness :
  result (parse_changelog security_section_document allowed_labels)
  = Return [].
Proof.
  apply (@found_label_not_allowed_empties_result security_section_document
           allowed_labels (lit "Security")
           (Py.join [newline] [lit "- a fix"; []; lit "## [1.0.0] - 2024-01-01"])).
  - vm_compute. tauto.
  - vm_compute. reflexivity.
Defined.

(** X3. Every heading the ordering check collects has a version that
    starts with a digit and a date of the digit shape, the shape of the
    strings [strptime] is called on. *)
Theorem dated_headings_have_digit_shape content v d :
  In (v, d) (dated_releases content) ->
  (exists c w, v = c :: w /\ is_digit c = true) /\
  date_shape d /\ date_fields d <> None.
Proof.
  intros H. apply dated_release_shape in H. destruct H as [V D].
  repeat split; auto.
  destruct (date_shape_fields D) as [t E]. rewrite E. discriminate.
Qed.

Lemma dated_headings_have_digit_shape_witness :
  date_shape (lit "2023-01-01").
Proof.
  apply (@dated_headings_have_digit_shape well_ordered_document
           (lit "1.0.0") (lit "2023-01-01")).
  vm_compute. tauto.
Defined.

(** ** Facts about the scan *)

Module ScannerFacts.

(** *** Searching for a fixed text *)

Lemma span_text : forall t s s', Span (Text t) s s' <-> s = t ++ s'.
Proof.
  induction t as [|c [|d t] IH]; intros s s'.
  - simpl. split; [apply span_empty_inv|intros ->; constructor].
  - simpl. split; [apply span_char_inv|].
    intros ->. constructor. apply Ascii.eqb_refl.
  - change (Text (c :: d :: t)) with (Cat (Class (CChar c)) (Text (d :: t))).
    split.
    + intros H. apply span_cat_inv in H. destruct H as [s1 [H1 H2]].
      apply span_char_inv in H1. apply IH in H2. now subst.
    + intros ->. eapply SpCat; [constructor; apply Ascii.eqb_refl|].
      apply IH. reflexivity.
Qed.

Lemma startswith_prefix : forall p s,
  Py.startswith p s = true <-> exists s', s = p ++ s'.
Proof.
  induction p as [|x p IH]; intros s; simpl.
  - split; eauto.
  - destruct s as [|y s].
    + split; [discriminate|]. intros [s' E]. discriminate.
    + rewrite andb_true_iff, IH. split.
      * intros [E [s' ->]]. apply Ascii.eqb_eq in E. subst. eauto.
      * intros [s' E]. injection E as -> ->. split; eauto.
        apply Ascii.eqb_refl.
Qed.

Lemma matches_text t s : matches (Text t) s = Py.startswith t s.
Proof.
  apply eq_true_iff_eq. rewrite matches_span, startswith_prefix.
  split; intros [s' H]; exists s'; now apply span_text.
Qed.

(** [re.search] for a fixed text is the substring test. *)
Lemma search_text t : forall s, search (Text t) s = Py.contains t s.
Proof.
  induction s as [|c s IH]; simpl; rewrite matches_text; [reflexivity|].
  now rewrite IH.
Qed.

Lemma contains_substring p : forall s,
  Py.contains p s = true <-> exists before after, s = before ++ p ++ after.
Proof.
  induction s as [|c s IH]; simpl.
  - rewrite orb_false_r, startswith_prefix. split.
    + intros [s' E]. exists [], s'. exact E.
    + intros [[|x b] [a E]]; [eauto|discriminate].
  - rewrite orb_true_iff, startswith_prefix, IH. split.
    + intros [[s' E]|[b [a ->]]].
      * exists [], s'. exact E.
      * exists (c :: b), a. reflexivity.
    + intros [[|x b] [a E]].
      * left. eauto.
      * right. injection E as -> ->. eauto.
Qed.

(** *** The loop over the lines *)

Lemma check_lines_cons line lines :
  check_lines (line :: lines) =
  if heading_ok line then check_lines lines
  else ([[PStr yellow; PStr (lit "Format not allowed:"); PStr line;
          PStr plain]], Return false).
Proof.
  cbn [check_lines]. unfold heading_ok.
  destruct (opens_release line); [|reflexivity].
  destruct (matches heading_regex (Py.strip line)); reflexivity.
Qed.

Lemma check_lines_result : forall lines,
  result (check_lines lines) = Return (forallb heading_ok lines).
Proof.
  induction lines as [|line lines IH]; [reflexivity|].
  rewrite check_lines_cons. cbn [forallb].
  destruct (heading_ok line); [exact IH|reflexivity].
Qed.

Lemma check_lines_printed : forall lines,
  length (printed (check_lines lines))
  = if forallb heading_ok lines then 0 else 1.
Proof.
  induction lines as [|line lines IH]; [reflexivity|].
  rewrite check_lines_cons. cbn [forallb].
  destruct (heading_ok line); [exact IH|reflexivity].
Qed.

(** *** The ordering loop *)

Lemma strptime_cases d :
  (calendar_date d = true /\ exists t, date_fields d = Some t /\
                                      strptime d = ([], Return t)) \/
  (calendar_date d = false /\ strptime d = ([], Raise ValueError)).
Proof.
  unfold calendar_date, strptime.
  destruct (date_fields d) as [t|]; [|now right].
  destruct (calendar_ok t); [left; eauto|now right].
Qed.

Lemma order_outcome_step a b t :
  order_outcome (a :: b :: t) =
  if calendar_date (snd b) && calendar_date (snd a)
  then if in_order a b then order_outcome (b :: t) else Return false
  else Raise ValueError.
Proof. reflexivity. Qed.

Lemma all_adjacent_step (A : Type) (p : A -> A -> bool) a b t :
  all_adjacent p (a :: b :: t) = p a b && all_adjacent p (b :: t).
Proof. reflexivity. Qed.

(** One round: what it returns and how much it prints. *)
Lemma check_pair_cases (matches : list (str * str)) i :
  let cur := nth i matches ([], []) in
  let prev := nth (i - 1) matches ([], []) in
  (calendar_date (snd cur) && calendar_date (snd prev) = false /\
   check_pair matches i = ([], Raise ValueError)) \/
  (calendar_date (snd cur) && calendar_date (snd prev) = true /\
   result (check_pair matches i) = Return (in_order prev cur) /\
   length (printed (check_pair matches i))
   = if in_order prev cur then 0 else 1).
Proof.
  intros cur prev. unfold check_pair. fold cur. fold prev.
  destruct (strptime_cases (snd cur)) as [[C1 [t1 [F1 S1]]]|[C1 S1]];
    rewrite S1, C1; [|left; split; reflexivity].
  destruct (strptime_cases (snd prev)) as [[C2 [t2 [F2 S2]]]|[C2 S2]];
    rewrite S2, C2; [|left; split; reflexivity].
  right. split; [reflexivity|].
  unfold in_order, later. rewrite F1, F2. unfold Py.ge.
  destruct (Py.lt (fst cur) (fst prev)); simpl; [|split; reflexivity].
  destruct (datetime_gt t1 t2); split; reflexivity.
Qed.

Lemma nth_after (A : Type) (pre : list A) a b t d :
  nth (S (length pre) - 1) (pre ++ a :: b :: t) d = a /\
  nth (S (length pre)) (pre ++ a :: b :: t) d = b.
Proof.
  split.
  - simpl. rewrite Nat.sub_0_r. apply nth_middle.
  - replace (pre ++ a :: b :: t) with ((pre ++ [a]) ++ b :: t)
      by (now rewrite <- app_assoc).
    replace (S (length pre)) with (length (pre ++ [a]))
      by (rewrite length_app; simpl; lia).
    apply nth_middle.
Qed.

(** The loop over the indices is [order_outcome] on the list, and it
    prints one line exactly when it returns false. *)
Lemma check_order_outcome : forall (t pre : list (str * str)) (a : str * str),
  result (check_order (pre ++ a :: t) (seq (S (length pre)) (length t)))
  = order_outcome (a :: t) /\
  length (printed (check_order (pre ++ a :: t)
                               (seq (S (length pre)) (length t))))
  = match order_outcome (a :: t) with Return false => 1 | _ => 0 end.
Proof.
  induction t as [|b t IH]; intros pre a; [split; reflexivity|].
  cbn [length seq check_order]. rewrite order_outcome_step.
  destruct (nth_after pre a b t ([], [])) as [Ea Eb].
  pose proof (check_pair_cases (pre ++ a :: b :: t) (S (length pre))) as C.
  cbv zeta in C. rewrite Ea, Eb in C.
  destruct C as [[V E]|[V [R P]]]; rewrite V.
  - rewrite E. split; reflexivity.
  - destruct (check_pair (pre ++ a :: b :: t) (S (length pre)))
      as [out r] eqn:E.
    unfold result, printed in R, P. simpl in R, P. subst r.
    destruct (in_order a b).
    + specialize (IH (pre ++ [a]) b).
      replace ((pre ++ [a]) ++ b :: t) with (pre ++ a :: b :: t) in IH
        by (now rewrite <- app_assoc).
      replace (S (length (pre ++ [a]))) with (S (S (length pre))) in IH
        by (rewrite length_app; simpl; lia).
      destruct (check_order (pre ++ a :: b :: t)
                            (seq (S (S (length pre))) (length t)))
        as [out' r'].
      unfold result, printed in IH. simpl in IH. destruct IH as [-> IHp].
      unfold result, printed. simpl. split; [reflexivity|].
      rewrite length_app, P. exact IHp.
    + unfold result, printed. simpl. split; [reflexivity|].
      rewrite length_app, P. reflexivity.
Qed.

Lemma order_outcome_true : forall l,
  order_outcome l = Return true <->
  (2 <= length l -> forallb calendar_date (map snd l) = true) /\
  all_adjacent in_order l = true.
Proof.
  induction l as [|a [|b t] IH].
  - simpl. split; [intros _; split; [lia|reflexivity]|reflexivity].
  - simpl. split; [intros _; split; [lia|reflexivity]|reflexivity].
  - rewrite order_outcome_step, all_adjacent_step. split.
    + intros H.
      destruct (calendar_date (snd b) && calendar_date (snd a)) eqn:V;
        [|discriminate].
      destruct (in_order a b); [|discriminate].
      apply IH in H. destruct H as [C A].
      apply andb_true_iff in V. destruct V as [Vb Va].
      split; [|exact A]. intros _.
      change (map snd (a :: b :: t)) with (snd a :: map snd (b :: t)).
      cbn [forallb]. rewrite Va.
      destruct t as [|c t]; [simpl; now rewrite Vb|].
      apply C. simpl. lia.
    + intros [C A]. apply andb_true_iff in A. destruct A as [O A].
      assert (V : forallb calendar_date (map snd (a :: b :: t)) = true)
        by (apply C; simpl; lia).
      change (map snd (a :: b :: t)) with (snd a :: snd b :: map snd t) in V.
      cbn [forallb] in V. apply andb_true_iff in V.
      destruct V as [Va V]. pose proof V as V'.
      apply andb_true_iff in V'. destruct V' as [Vb _].
      rewrite Va, Vb, O. cbn [andb]. apply IH. split; [|exact A].
      intros _. exact V.
Qed.

Lemma order_outcome_raise : forall l e,
  order_outcome l = Raise e ->
  e = ValueError /\ exists r, In r l /\ calendar_date (snd r) = false.
Proof.
  induction l as [|a [|b t] IH]; intros e H; try discriminate.
  rewrite order_outcome_step in H.
  destruct (calendar_date (snd b) && calendar_date (snd a)) eqn:V.
  - destruct (in_order a b); [|discriminate].
    apply IH in H. destruct H as [-> [r [I C]]].
    split; [reflexivity|]. exists r. split; [now right|exact C].
  - injection H as <-. split; [reflexivity|].
    apply andb_false_iff in V. destruct V as [V|V].
    + exists b. split; [simpl; auto|exact V].
    + exists a. split; [simpl; auto|exact V].
Qed.

Lemma order_outcome_calendar : forall l,
  forallb calendar_date (map snd l) = true ->
  order_outcome l = Return (all_adjacent in_order l).
Proof.
  induction l as [|a [|b t] IH]; intros V; try reflexivity.
  rewrite order_outcome_step, all_adjacent_step.
  change (map snd (a :: b :: t)) with (snd a :: snd b :: map snd t) in V.
  cbn [forallb] in V.
  apply andb_true_iff in V. destruct V as [Va V]. pose proof V as V'.
  apply andb_true_iff in V'. destruct V' as [Vb _].
  rewrite Va, Vb. cbn [andb]. destruct (in_order a b); [|reflexivity].
  now apply IH.
Qed.

(** *** The whole scan in closed form *)

Lemma scan_closed_form content :
  result (verify_changelog_format content) = scan_outcome content /\
  length (printed (verify_changelog_format content))
  = match scan_outcome content with Return false => 1 | _ => 0 end.
Proof.
  unfold verify_changelog_format, scan_outcome, title_regex, unreleased_regex.
  rewrite !search_text.
  destruct (Py.contains (lit "# Changelog") content); [|split; reflexivity].
  destruct (Py.contains (lit "## [Unreleased]") content);
    [|split; reflexivity].
  cbn [negb].
  pose proof (check_lines_result (Py.split [newline] content)) as R.
  pose proof (check_lines_printed (Py.split [newline] content)) as P.
  destruct (check_lines (Py.split [newline] content)) as [out r].
  unfold result, printed in R, P. simpl in R, P. subst r.
  destruct (forallb heading_ok (Py.split [newline] content)).
  - destruct out; [|discriminate]. cbn [negb bind app].
    fold (dated_releases content).
    destruct (Nat.ltb (length (dated_releases content)) 2) eqn:N;
      [split; reflexivity|].
    apply Nat.ltb_ge in N.
    destruct (dated_releases content) as [|a t]; [simpl in N; lia|].
    replace (length (a :: t) - 1) with (length t) by (simpl; lia).
    pose proof (check_order_outcome t [] a) as [R P']. cbn [app length] in R, P'.
    destruct (check_order (a :: t) (seq 1 (length t))) as [out' r'].
    exact (conj R P').
  - cbn [negb bind]. unfold result, printed. simpl. split; [reflexivity|].
    rewrite app_nil_r. exact P.
Qed.

End ScannerFacts.

Import ScannerFacts.

(** ** Facts about the two orders *)

Module OrderFacts.

(** *** The order of strings *)

Lemma lt_irrefl : forall a, Py.lt a a = false.
Proof.
  induction a as [|x a IH]; simpl; auto. now rewrite Nat.ltb_irrefl.
Qed.

Lemma lt_trans : forall a b c,
  Py.lt a b = true -> Py.lt b c = true -> Py.lt a c = true.
Proof.
  induction a as [|x a IH]; intros [|y b] [|z c] H1 H2; simpl in *;
    try discriminate; auto.
  destruct (Nat.ltb_spec (code x) (code y)) as [L1|L1].
  - destruct (Nat.ltb_spec (code y) (code z)) as [L2|L2].
    + destruct (Nat.ltb_spec (code x) (code z)); [auto|lia].
    + destruct (Nat.ltb_spec (code z) (code y)); [discriminate|].
      destruct (Nat.ltb_spec (code x) (code z)); [auto|lia].
  - destruct (Nat.ltb_spec (code y) (code x)); [discriminate|].
    destruct (Nat.ltb_spec (code y) (code z)) as [L2|L2].
    + destruct (Nat.ltb_spec (code x) (code z)); [auto|lia].
    + destruct (Nat.ltb_spec (code z) (code y)); [discriminate|].
      destruct (Nat.ltb_spec (code x) (code z)); [auto|].
      destruct (Nat.ltb_spec (code z) (code x)); [lia|]. eauto.
Qed.

(** *** The order of dates *)

Lemma datetime_gt_after a b : datetime_gt a b = true <-> comes_after a b.
Proof.
  unfold datetime_gt, comes_after.
  rewrite !orb_true_iff, !andb_true_iff, !orb_true_iff, !andb_true_iff,
    !Nat.ltb_lt, !Nat.eqb_eq.
  tauto.
Qed.

Lemma not_after_trans a b c :
  datetime_gt b a = false -> datetime_gt c b = false ->
  datetime_gt c a = false.
Proof.
  rewrite <- !not_true_iff_false, !datetime_gt_after. unfold comes_after. lia.
Qed.

(** *** The ordering rule along the list *)

Lemma in_order_trans a b c :
  date_fields (snd b) <> None ->
  in_order a b = true -> in_order b c = true -> in_order a c = true.
Proof.
  unfold in_order, later. intros F H1 H2.
  apply andb_true_iff in H1. destruct H1 as [V1 D1].
  apply andb_true_iff in H2. destruct H2 as [V2 D2].
  rewrite (lt_trans _ _ _ V2 V1). simpl.
  apply negb_true_iff in D1. apply negb_true_iff in D2.
  apply negb_true_iff.
  destruct (date_fields (snd b)) as [tb|]; [|now elim F].
  destruct (date_fields (snd c)) as [tc|]; [|reflexivity].
  destruct (date_fields (snd a)) as [ta|]; [|reflexivity].
  exact (not_after_trans _ _ _ D1 D2).
Qed.

Lemma all_adjacent_tail (A : Type) (p : A -> A -> bool) a l :
  all_adjacent p (a :: l) = true -> all_adjacent p l = true.
Proof.
  destruct l as [|b l]; [reflexivity|].
  rewrite all_adjacent_step, andb_true_iff. tauto.
Qed.

Lemma all_adjacent_suffix (A : Type) (p : A -> A -> bool) : forall l1 l2,
  all_adjacent p (l1 ++ l2) = true -> all_adjacent p l2 = true.
Proof.
  induction l1 as [|a l1 IH]; intros l2 H; [exact H|].
  apply IH. now apply all_adjacent_tail in H.
Qed.

(** Under the ordering rule every release obeys it against every one
    listed further down, not only the next. *)
Lemma in_order_with_all_below : forall l a,
  Forall (fun r => date_fields (snd r) <> None) l ->
  all_adjacent in_order (a :: l) = true ->
  Forall (fun b => in_order a b = true) l.
Proof.
  induction l as [|b l IH]; intros a F H; [constructor|].
  rewrite all_adjacent_step in H. apply andb_true_iff in H.
  destruct H as [O H]. inversion F as [|? ? Fb Fl]; subst.
  constructor; [exact O|].
  specialize (IH b Fl H). rewrite Forall_forall in IH |- *.
  intros c I. apply (in_order_trans a b c Fb O). now apply IH.
Qed.

Lemma dated_releases_have_fields content :
  Forall (fun r => date_fields (snd r) <> None) (dated_releases content).
Proof.
  apply Forall_forall. intros [v d] I.
  apply dated_release_shape in I. destruct I as [_ D].
  destruct (date_shape_fields D) as [t E]. simpl. rewrite E. discriminate.
Qed.

Lemma in_order_across (l : list (str * str)) before A between B after' :
  Forall (fun r => date_fields (snd r) <> None) l ->
  all_adjacent in_order l = true ->
  l = before ++ A :: between ++ B :: after' ->
  in_order A B = true.
Proof.
  intros F H ->. apply all_adjacent_suffix in H.
  apply Forall_app in F. destruct F as [_ F].
  inversion F as [|? ? _ F']; subst.
  pose proof (@in_order_with_all_below _ _ F' H) as G.
  rewrite Forall_forall in G. apply G.
  apply in_or_app. right. now left.
Qed.

Lemma distinct_across_nodup (A B : Type) (f : A -> B) : forall l,
  (forall before a between b after',
     l = before ++ a :: between ++ b :: after' -> f a <> f b) ->
  NoDup (map f l).
Proof.
  induction l as [|a l IH]; intros H; [constructor|].
  simpl. constructor.
  - intros I. apply in_map_iff in I. destruct I as [b [E I]].
    apply in_split in I. destruct I as [l1 [l2 ->]].
    apply (H [] a l1 b l2 eq_refl). now symmetry.
  - apply IH. intros before x between y after' ->.
    apply (H (a :: before) x between y after'). reflexivity.
Qed.

End OrderFacts.

Import OrderFacts.

(** ** Further properties of the scan *)

(** X4. On a document of code points below 256, where [\d] is ['0'] to
    ['9'], the scan returns true exactly when the document contains the
    texts [# Changelog] and [## [Unreleased]], its release-opening lines
    all have the heading shape, and it has two dated headings or more, all
    dated in the calendar, each below the one before it in version and not
    later in date. *)
Theorem scan_accepts_exactly content :
  result (verify_changelog_format content) = Return true <->
  (exists before after', content = before ++ lit "# Changelog" ++ after') /\
  (exists before after',
     content = before ++ lit "## [Unreleased]" ++ after') /\
  (forall line, In line (Py.split [newline] content) ->
     opens_release line = true ->
     matches heading_regex (Py.strip line) = true) /\
  2 <= length (dated_releases content) /\
  (forall v d, In (v, d) (dated_releases content) ->
     calendar_date d = true) /\
  (forall i, 1 <= i < length (dated_releases content) ->
     in_order (nth (i - 1) (dated_releases content) ([], []))
              (nth i (dated_releases content) ([], [])) = true).
Proof.
  rewrite (proj1 (scan_closed_form content)). unfold scan_outcome.
  rewrite <- !contains_substring, <- (all_adjacent_nth in_order ([], [])).
  assert (L : forallb heading_ok (Py.split [newline] content) = true <->
              forall line, In line (Py.split [newline] content) ->
                opens_release line = true ->
                matches heading_regex (Py.strip line) = true).
  { rewrite forallb_forall. unfold heading_ok.
    split; intros H line I; specialize (H line I).
    - intros O. now rewrite O in H.
    - destruct (opens_release line); auto. }
  assert (C : forallb calendar_date (map snd (dated_releases content)) = true
              <-> forall v d, In (v, d) (dated_releases content) ->
                    calendar_date d = true).
  { rewrite forallb_forall. split.
    - intros H v d I. apply H. apply in_map_iff. now exists (v, d).
    - intros H d I. apply in_map_iff in I. destruct I as [[v d'] [<- I]].
      now apply (H v). }
  rewrite <- L, <- C.
  destruct (Py.contains (lit "# Changelog") content);
    [|split; [discriminate|intros [? _]; discriminate]].
  destruct (Py.contains (lit "## [Unreleased]") content);
    [|split; [discriminate|intros (_ & ? & _); discriminate]].
  destruct (forallb heading_ok (Py.split [newline] content));
    [|split; [discriminate|intros (_ & _ & ? & _); discriminate]].
  cbn [negb].
  destruct (Nat.ltb_spec (length (dated_releases content)) 2) as [N|N].
  - split; [discriminate|]. intros (_ & _ & _ & N' & _). lia.
  - rewrite order_outcome_true. split.
    + intros [V A]. repeat split; auto.
    + intros (_ & _ & _ & _ & V & A). split; auto.
Qed.

Lemma scan_accepts_exactly_witness :
  2 <= length (dated_releases well_ordered_document).
Proof.
  apply (proj1 (scan_accepts_exactly well_ordered_document)).
  vm_compute. reflexivity.
Defined.

(** X5. The scan raises nothing but [ValueError], and only on a document
    that passed the earlier checks and has a dated heading whose date is
    no date of the calendar; when all dated headings carry dates of the
    calendar it returns a boolean. *)
Theorem scan_raises_only_on_calendar content :
  (forall e, result (verify_changelog_format content) = Raise e ->
     e = ValueError /\
     2 <= length (dated_releases content) /\
     exists v d, In (v, d) (dated_releases content) /\
                 date_shape d /\ calendar_date d = false) /\
  (forallb calendar_date (map snd (dated_releases content)) = true ->
   exists b, result (verify_changelog_format content) = Return b).
Proof.
  rewrite (proj1 (scan_closed_form content)). unfold scan_outcome. split.
  - intros e H.
    destruct (negb (Py.contains (lit "# Changelog") content));
      [discriminate|].
    destruct (negb (Py.contains (lit "## [Unreleased]") content));
      [discriminate|].
    destruct (negb (forallb heading_ok (Py.split [newline] content)));
      [discriminate|].
    destruct (Nat.ltb_spec (length (dated_releases content)) 2) as [N|N];
      [discriminate|].
    apply order_outcome_raise in H. destruct H as [-> [[v d] [I C]]].
    split; [reflexivity|]. split; [exact N|].
    exists v, d. split; [exact I|]. split; [|exact C].
    now apply dated_release_shape in I.
  - intros V. rewrite (order_outcome_calendar _ V).
    destruct (negb (Py.contains (lit "# Changelog") content)); eauto.
    destruct (negb (Py.contains (lit "## [Unreleased]") content)); eauto.
    destruct (negb (forallb heading_ok (Py.split [newline] content))); eauto.
    destruct (Nat.ltb (length (dated_releases content)) 2); eauto.
Qed.

Lemma scan_raises_only_on_calendar_witness :
  exists v d, In (v, d) (dated_releases month_13_document) /\
              date_shape d /\ calendar_date d = false.
Proof.
  apply (proj1 (scan_raises_only_on_calendar month_13_document) ValueError).
  vm_compute. reflexivity.
Defined.

(** X6. The scan prints one line when it returns false and nothing when
    it returns true or raises. *)
Theorem scan_prints_once_on_failure content :
  length (printed (verify_changelog_format content))
  = match result (verify_changelog_format content) with
    | Return false => 1
    | _ => 0
    end.
Proof.
  destruct (scan_closed_form content) as [R P]. now rewrite R.
Qed.

(** X7. In a document the scan accepts, any dated release is above every
    dated release listed further down, adjacent or not: the lower one has
    the smaller version string and a date that is not later. So no version
    is listed twice. *)
Theorem accepted_releases_descend content :
  result (verify_changelog_format content) = Return true ->
  (forall before A between B after',
     dated_releases content = before ++ A :: between ++ B :: after' ->
     Py.lt (fst B) (fst A) = true /\ later (snd B) (snd A) = false /\
     fst A <> fst B) /\
  NoDup (map fst (dated_releases content)).
Proof.
  intros H. rewrite (proj1 (scan_closed_form content)) in H.
  unfold scan_outcome in H.
  destruct (negb (Py.contains (lit "# Changelog") content));
    [discriminate|].
  destruct (negb (Py.contains (lit "## [Unreleased]") content));
    [discriminate|].
  destruct (negb (forallb heading_ok (Py.split [newline] content)));
    [discriminate|].
  destruct (Nat.ltb (length (dated_releases content)) 2); [discriminate|].
  apply order_outcome_true in H. destruct H as [_ A].
  assert (P : forall before a between b after',
            dated_releases content = before ++ a :: between ++ b :: after' ->
            Py.lt (fst b) (fst a) = true /\ later (snd b) (snd a) = false /\
            fst a <> fst b).
  { intros before a between b after' E.
    pose proof (@in_order_across _ _ _ _ _ _
                  (dated_releases_have_fields content) A E) as O.
    unfold in_order in O. apply andb_true_iff in O. destruct O as [V D].
    apply negb_true_iff in D. repeat split; auto.
    intros Eq. rewrite Eq, lt_irrefl in V. discriminate. }
  split; [exact P|].
  apply distinct_across_nodup. intros before a between b after' E.
  now apply (P before a between b after').
Qed.

Lemma accepted_releases_descend_witness :
  NoDup (map fst (dated_releases well_ordered_document)).
Proof.
  apply (proj2 (@accepted_releases_descend well_ordered_document
                  ltac:(vm_compute; reflexivity))).
Defined.

(** ** Facts about the extractor and the missing key *)

Module ExtractorFacts.

(** *** [verify_sections] and the missing key *)

Lemma verify_sections_key_error allowed bad rest : forall good,
  labels_allowed good allowed = true ->
  lookup (lit "section") bad = None ->
  verify_sections (good ++ bad :: rest) allowed = ([], Raise KeyError).
Proof.
  induction good as [|sec good IH]; intros G L.
  - cbn [app verify_sections]. unfold getitem. rewrite L. reflexivity.
  - cbn [labels_allowed forallb] in G. apply andb_true_iff in G.
    destruct G as [G1 G2].
    destruct (lookup (lit "section") sec) as [l|] eqn:E; [|discriminate].
    cbn [app]. rewrite (@verify_sections_cons _ _ _ _ E), G1. now apply IH.
Qed.

Lemma verify_sections_raise allowed : forall secs out e,
  verify_sections secs allowed = (out, Raise e) ->
  out = [] /\ e = KeyError /\
  exists good bad rest,
    secs = good ++ bad :: rest /\ labels_allowed good allowed = true /\
    lookup (lit "section") bad = None.
Proof.
  induction secs as [|sec secs IH]; intros out e H; [discriminate|].
  destruct (lookup (lit "section") sec) as [l|] eqn:E.
  - rewrite (@verify_sections_cons _ _ _ _ E) in H.
    destruct (pyval_in l allowed) eqn:P; [|discriminate].
    apply IH in H. destruct H as (-> & -> & good & bad & rest & -> & G & L).
    repeat split; auto. exists (sec :: good), bad, rest.
    repeat split; auto. cbn [labels_allowed forallb]. rewrite E, P. exact G.
  - cbn [verify_sections] in H. unfold getitem in H. rewrite E in H.
    injection H as <- <-. repeat split; auto.
    exists [], sec, secs. repeat split; auto.
Qed.

Lemma verify_version_raise v allowed out e :
  verify_sections (sections v) allowed = (out, Raise e) ->
  verify_version v allowed = (out, Raise e).
Proof. intros E. unfold verify_version. now rewrite E. Qed.

Lemma verify_version_raise_inv v allowed e :
  result (verify_version v allowed) = Raise e ->
  exists out, verify_sections (sections v) allowed = (out, Raise e).
Proof.
  unfold verify_version.
  destruct (verify_sections (sections v) allowed) as [out [ok|e']].
  - cbn [bind ret]. unfold result. simpl. discriminate.
  - intros H. unfold result in H. simpl in H. injection H as ->. eauto.
Qed.

(** *** [parse_changelog] in closed form *)

Lemma parse_sections_closed allowed : forall found parsed,
  result (parse_sections allowed found parsed)
  = Return (if forallb (label_ok allowed) found
            then Some (parsed ++ map section_dict found) else None) /\
  length (printed (parse_sections allowed found parsed))
  = if forallb (label_ok allowed) found then 0 else 1.
Proof.
  induction found as [|[title changes] found IH]; intros parsed.
  - cbn [parse_sections forallb map]. rewrite app_nil_r. split; reflexivity.
  - rewrite parse_sections_cons. cbn [forallb]. unfold label_ok at 1 3.
    cbn [fst].
    destruct (Py.mem (Py.strip title) allowed); [|split; reflexivity].
    cbn [andb]. destruct (IH (parsed ++ [section_dict (title, changes)]))
      as [R P].
    rewrite R, P. cbn [map]. rewrite <- app_assoc. split; reflexivity.
Qed.

Lemma parse_versions_closed content allowed : forall versions changelog,
  result (parse_versions content allowed versions changelog)
  = Return (match versions with
            | [] => changelog
            | _ :: _ =>
                if found_labels_allowed content allowed
                then changelog ++ map (release_dict content) versions
                else []
            end) /\
  length (printed (parse_versions content allowed versions changelog))
  = match versions with
    | [] => 0
    | _ :: _ => if found_labels_allowed content allowed then 0 else 1
    end.
Proof.
  induction versions as [|[v d] versions IH]; intros changelog;
    [split; reflexivity|].
  cbn [parse_versions].
  destruct (parse_sections_closed allowed (findall2 section_regex content) [])
    as [R P].
  fold (label_ok allowed) in R, P.
  change (forallb (label_ok allowed) (findall2 section_regex content))
    with (found_labels_allowed content allowed) in R, P.
  destruct (parse_sections allowed (findall2 section_regex content) [])
    as [out r].
  unfold result, printed in R, P. simpl in R, P. subst r.
  destruct (found_labels_allowed content allowed) eqn:A.
  - destruct out; [|discriminate]. cbn [bind app].
    match goal with
    | |- context [parse_versions _ _ _ ?c] => specialize (IH c)
    end.
    destruct IH as [R' P'].
    destruct (parse_versions content allowed versions _) as [out' r'].
    unfold result, printed in *. simpl in *. subst r'.
    destruct versions as [|x versions].
    + split; [reflexivity|exact P'].
    + rewrite ?A in P'. split; [|exact P'].
      rewrite <- app_assoc. reflexivity.
  - cbn [bind ret]. unfold result, printed. simpl. rewrite app_nil_r.
    split; [reflexivity|exact P].
Qed.

Lemma parse_changelog_closed content allowed :
  result (parse_changelog content allowed)
  = Return (if found_labels_allowed content allowed
            then map (release_dict content) (findall2 release_regex content)
            else []) /\
  length (printed (parse_changelog content allowed))
  = match findall2 release_regex content with
    | [] => 0
    | _ :: _ => if found_labels_allowed content allowed then 0 else 1
    end.
Proof.
  unfold parse_changelog.
  destruct (parse_versions_closed content allowed
              (findall2 release_regex content) []) as [R P].
  split; [|exact P]. rewrite R.
  destruct (findall2 release_regex content); [|reflexivity].
  now destruct (found_labels_allowed content allowed).
Qed.

(** *** What the groups of the heading pattern hold *)

Lemma release_groups st0 st :
  In st (exec release_regex st0) -> date_shape (group 2 (caps st)).
Proof.
  unfold release_regex. cbn [Seq]. intros H.
  apply in_exec_cat in H. destruct H as [st1 [_ H]].
  apply in_exec_cat in H. destruct H as [st2 [_ H]].
  apply in_exec_cat in H. destruct H as [st3 [_ H4]].
  apply in_exec_group in H4. destruct H4 as [y [Hy ->]].
  simpl. apply exec_span, span_date in Hy. destruct Hy as [w [E D]].
  rewrite (@consumed_prefix _ _ _ E). exact D.
Qed.

Lemma release_date_shape content v d :
  In (v, d) (findall2 release_regex content) -> date_shape d.
Proof.
  intros H. apply in_findall2 in H. destruct H as [t [st [H [_ ->]]]].
  now apply release_groups in H.
Qed.

Lemma date_shape_verify_date d : date_shape d -> verify_date d = true.
Proof.
  intros D.
  assert (M : matches date_regex d = true).
  { apply matches_date.
    destruct D as (y1 & y2 & y3 & y4 & m1 & m2 & d1 & d2 & -> & F).
    exists y1, y2, y3, y4, m1, m2, d1, d2. split; [reflexivity|exact F]. }
  destruct D as (y1 & ? & ? & ? & ? & ? & ? & ? & -> & _).
  unfold verify_date. cbn [length Nat.ltb Nat.leb orb]. now rewrite M.
Qed.

Lemma document_sections_labels content allowed :
  labels_allowed (document_sections content) allowed
  = found_labels_allowed content allowed.
Proof.
  unfold labels_allowed, document_sections, found_labels_allowed.
  induction (findall2 section_regex content) as [|f l IH]; [reflexivity|].
  cbn [map forallb]. rewrite IH. reflexivity.
Qed.

Lemma document_sections_keyed content : keyed (document_sections content).
Proof.
  unfold keyed, document_sections. apply Forall_forall. intros sec I.
  apply in_map_iff in I. destruct I as [f [<- _]]. discriminate.
Qed.

End ExtractorFacts.

Import ExtractorFacts.

(** ** Facts about versions of three numbers *)

Module VersionFacts.

Lemma verify_sections_allowed allowed : forall secs,
  labels_allowed secs allowed = true ->
  verify_sections secs allowed = ([], Return true).
Proof.
  induction secs as [|sec secs IH]; intros G; [reflexivity|].
  cbn [labels_allowed forallb] in G. apply andb_true_iff in G.
  destruct G as [G1 G2].
  destruct (lookup (lit "section") sec) as [l|] eqn:E; [|discriminate].
  rewrite (@verify_sections_cons _ _ _ _ E), G1. now apply IH.
Qed.

(** *** Digits and dots *)

Lemma is_number_digits w : is_number w = true -> forallb is_digit w = true.
Proof.
  destruct w as [|c [|d w]]; simpl; try discriminate.
  - now intros ->.
  - rewrite andb_true_iff. intros [R F].
    assert (D : is_digit c = true) by (apply digit_cases; now right).
    now rewrite D.
Qed.

Lemma dot_is_no_digit : is_digit "."%char = false.
Proof. reflexivity. Qed.

(** Two strings of digits that end at a dot of the same text are the
    same. *)
Lemma digits_until_dot : forall x y r1 r2,
  forallb is_digit x = true -> forallb is_digit y = true ->
  x ++ "."%char :: r1 = y ++ "."%char :: r2 -> x = y /\ r1 = r2.
Proof.
  induction x as [|a x IH]; intros [|b y] r1 r2 Fx Fy E; simpl in *.
  - injection E as ->. auto.
  - injection E as <- _. apply andb_true_iff in Fy. destruct Fy as [D _].
    rewrite dot_is_no_digit in D. discriminate.
  - injection E as -> _. apply andb_true_iff in Fx. destruct Fx as [D _].
    rewrite dot_is_no_digit in D. discriminate.
  - injection E as -> E. apply andb_true_iff in Fx. destruct Fx as [_ Fx].
    apply andb_true_iff in Fy. destruct Fy as [_ Fy].
    destruct (IH y r1 r2 Fx Fy E) as [-> ->]. auto.
Qed.

(** A string of digits starts with a number. *)
Lemma digits_start_with_number c :
  is_digits c = true -> exists p t, c = p ++ t /\ is_number p = true.
Proof.
  destruct c as [|x c]; [discriminate|]. intros F. simpl in F.
  apply andb_true_iff in F. destruct F as [D F].
  apply digit_cases in D. destruct D as [->|R].
  - exists ["0"%char], c. split; reflexivity.
  - exists (x :: c), []. split; [now rewrite app_nil_r|].
    destruct c as [|y c]; simpl.
    + apply digit_cases. now right.
    + simpl in F. now rewrite R, F.
Qed.

Lemma is_digits_forall w : is_digits w = true -> forallb is_digit w = true.
Proof. destruct w; [discriminate|auto]. Qed.

(** The validator on a version of three groups of digits: only leading
    zeros of the first two groups make it fail. *)
Lemma verify_semver_three_numbers a b c :
  is_digits a = true -> is_digits b = true -> is_digits c = true ->
  verify_semver (a ++ "."%char :: b ++ "."%char :: c)
  = is_number a && is_number b.
Proof.
  intros Da Db Dc. apply eq_true_iff_eq.
  rewrite verify_semver_prefix, andb_true_iff. split.
  - intros [w [t [E W]]].
    destruct W as [major minor patch pre build N1 N2 N3 _ _].
    rewrite <- !app_assoc in E. simpl in E. rewrite <- !app_assoc in E.
    simpl in E.
    apply digits_until_dot in E;
      [|now apply is_digits_forall|now apply is_number_digits].
    destruct E as [-> E].
    apply digits_until_dot in E;
      [|now apply is_digits_forall|now apply is_number_digits].
    destruct E as [-> _]. auto.
  - intros [Na Nb].
    destruct (digits_start_with_number _ Dc) as [p [t [-> Np]]].
    exists (a ++ "."%char :: b ++ "."%char :: p), t. split.
    + rewrite <- !app_assoc. simpl. rewrite <- !app_assoc. reflexivity.
    + rewrite <- (app_nil_r p). rewrite <- (app_nil_r (p ++ [])) at 1.
      rewrite <- app_assoc. constructor; auto; constructor.
Qed.

(** What [\d+] reads. *)
Lemma span_digits s s' :
  Span (Plus true digit) s s' ->
  exists w, s = w ++ s' /\ is_digits w = true.
Proof.
  unfold Plus, digit. intros H.
  apply span_cat_inv in H. destruct H as [s1 [H1 H2]].
  apply span_digit_inv in H1. destruct H1 as [c [-> D]].
  apply span_star_class in H2. destruct H2 as [w [-> F]].
  exists (c :: w). split; [reflexivity|].
  cbn [is_digits forallb]. rewrite D. exact F.
Qed.

Lemma span_three_groups s s' :
  Span three_numbers s s' ->
  exists a b c,
    s = (a ++ "."%char :: b ++ "."%char :: c) ++ s' /\
    is_digits a = true /\ is_digits b = true /\ is_digits c = true.
Proof.
  unfold three_numbers. cbn [Seq]. intros H.
  apply span_cat_inv in H. destruct H as [s1 [H1 H]].
  apply span_cat_inv in H. destruct H as [s2 [D1 H]].
  apply span_cat_inv in H. destruct H as [s3 [H2 H]].
  apply span_cat_inv in H. destruct H as [s4 [D2 H3]].
  apply span_digits in H1. destruct H1 as [a [-> Da]].
  apply span_char_inv in D1. subst s1.
  apply span_digits in H2. destruct H2 as [b [-> Db]].
  apply span_char_inv in D2. subst s3.
  apply span_digits in H3. destruct H3 as [c [-> Dc]].
  exists a, b, c. repeat split; auto.
  rewrite <- !app_assoc. simpl. rewrite <- !app_assoc. reflexivity.
Qed.

Lemma dated_version_groups st0 st :
  In st (exec dated_regex st0) ->
  exists a b c,
    group 1 (caps st) = a ++ "."%char :: b ++ "."%char :: c /\
    is_digits a = true /\ is_digits b = true /\ is_digits c = true.
Proof.
  unfold dated_regex. cbn [Seq]. intros H.
  apply in_exec_cat in H. destruct H as [st1 [_ H]].
  apply in_exec_cat in H. destruct H as [st2 [H2 H]].
  apply in_exec_cat in H. destruct H as [st3 [H3 H4]].
  apply in_exec_group in H2. destruct H2 as [x [Hx ->]].
  apply in_exec_group in H4. destruct H4 as [y [Hy ->]].
  apply groupless_caps in H3; [|apply groupless_text].
  assert (Gy : caps y = caps st3) by (apply (groupless_caps date_regex); auto).
  simpl in H3. simpl. rewrite Gy, H3. simpl.
  apply exec_span, span_three_groups in Hx.
  destruct Hx as (a & b & c & E & Da & Db & Dc).
  exists a, b, c. repeat split; auto. now apply consumed_prefix.
Qed.

End VersionFacts.

Import VersionFacts.

(** ** Further properties of the extractor and the validator *)

(** X8. A section without its ['section'] key makes [verify_version]
    raise [KeyError] exactly when every section before it carries an
    allowed label; then it returns no message at all, whatever the
    version and the date are, and prints nothing. It raises nothing
    else. *)
Theorem missing_key_raises_key_error v allowed :
  (forall good bad rest,
     sections v = good ++ bad :: rest ->
     labels_allowed good allowed = true ->
     lookup (lit "section") bad = None ->
     verify_version v allowed = ([], Raise KeyError)) /\
  (forall e, result (verify_version v allowed) = Raise e ->
     e = KeyError /\
     exists good bad rest,
       sections v = good ++ bad :: rest /\
       labels_allowed good allowed = true /\
       lookup (lit "section") bad = None).
Proof.
  split.
  - intros good bad rest S G L. apply verify_version_raise.
    rewrite S. now apply verify_sections_key_error.
  - intros e R. apply verify_version_raise_inv in R. destruct R as [out R].
    apply verify_sections_raise in R. tauto.
Qed.

Lemma missing_key_raises_key_error_witness :
  verify_version unlabelled_release allowed_labels = ([], Raise KeyError).
Proof.
  apply (proj1 (missing_key_raises_key_error unlabelled_release
                  allowed_labels)
           [] [(lit "changes", PList [PStr (lit "- a fix")])] []);
    reflexivity.
Defined.

(** X9. [parse_changelog] raises nothing. When every label the section
    scan finds is allowed it returns one record for each heading the
    heading pattern finds, in the order of the document, with the version
    and the date of that heading; otherwise it returns the empty list. It
    prints one line exactly when it drops headings it found. *)
Theorem parse_changelog_all_or_nothing content allowed :
  result (parse_changelog content allowed)
  = Return (if found_labels_allowed content allowed
            then map (release_dict content) (findall2 release_regex content)
            else []) /\
  length (printed (parse_changelog content allowed))
  = match findall2 release_regex content with
    | [] => 0
    | _ :: _ => if found_labels_allowed content allowed then 0 else 1
    end.
Proof. apply parse_changelog_closed. Qed.

(** X10. A release that [parse_changelog] returns can only fail the
    version check of [verify_version]: its date has the digit shape, its
    sections have their key and an allowed label, so [verify_version] on
    it raises nothing, prints nothing and returns either no message or the
    version message alone. *)
Theorem extracted_release_fails_on_version_only content allowed releases r :
  result (parse_changelog content allowed) = Return releases ->
  In r releases ->
  exists v d,
    r = release_dict content (v, d) /\
    verify_date d = true /\
    labels_allowed (document_sections content) allowed = true /\
    verify_version (mkVersion v d (document_sections content)) allowed
    = ([], Return (if verify_semver v then [] else [semver_message v])).
Proof.
  intros R I. rewrite (proj1 (parse_changelog_closed content allowed)) in R.
  injection R as <-.
  destruct (found_labels_allowed content allowed) eqn:A; [|destruct I].
  apply in_map_iff in I. destruct I as [[v d] [<- I]].
  exists v, d. split; [reflexivity|].
  pose proof (date_shape_verify_date (release_date_shape _ _ _ I)) as D.
  assert (L : labels_allowed (document_sections content) allowed = true)
    by (now rewrite document_sections_labels).
  repeat split; auto.
  rewrite (@verify_version_after _ allowed [] true).
  - cbn [version date _version _date]. rewrite D.
    now destruct (verify_semver v).
  - cbn [sections _sections]. now apply verify_sections_allowed.
Qed.

Lemma extracted_release_fails_on_version_only_witness :
  exists v d,
    release_dict well_ordered_document (lit "2.0.0", lit "2024-01-01")
    = release_dict well_ordered_document (v, d) /\
    verify_date d = true /\
    labels_allowed (document_sections well_ordered_document) allowed_labels
    = true /\
    verify_version (mkVersion v d (document_sections well_ordered_document))
                   allowed_labels
    = ([], Return (if verify_semver v then [] else [semver_message v])).
Proof.
  apply (@extracted_release_fails_on_version_only well_ordered_document
           allowed_labels
           (map (release_dict well_ordered_document)
                (findall2 release_regex well_ordered_document))).
  - vm_compute. reflexivity.
  - vm_compute. tauto.
Defined.

(** X11. In a document of code points below 256, where [\d] is ['0'] to
    ['9'], the version of every dated heading the scan collects is three
    groups of the digits ['0'] to ['9'] joined by dots, and [verify_semver]
    accepts such a version exactly when neither of the first two groups
    has a leading zero; a leading zero of the third group goes
    unnoticed. *)
Theorem dated_version_passes_semver content v d :
  In (v, d) (dated_releases content) ->
  exists a b c,
    v = a ++ "."%char :: b ++ "."%char :: c /\
    is_digits a = true /\ is_digits b = true /\ is_digits c = true /\
    verify_semver v = is_number a && is_number b.
Proof.
  intros H. apply in_findall2 in H. destruct H as [t [st [H [-> _]]]].
  apply dated_version_groups in H.
  destruct H as (a & b & c & -> & Da & Db & Dc).
  exists a, b, c. repeat split; auto.
  now apply verify_semver_three_numbers.
Qed.

Lemma dated_version_passes_semver_witness :
  exists a b c,
    lit "2.0.0" = a ++ "."%char :: b ++ "."%char :: c /\
    is_digits a = true /\ is_digits b = true /\ is_digits c = true /\
    verify_semver (lit "2.0.0") = is_number a && is_number b.
Proof.
  apply (@dated_version_passes_semver well_ordered_document (lit "2.0.0")
           (lit "2024-01-01")).
  vm_compute. auto.
Defined.

(** ** Facts about the files *)

Module FileFacts.

Lemma in_all_chars c : In c all_chars.
Proof.
  unfold all_chars. rewrite <- (ascii_nat_embedding c).
  apply in_map, in_seq. pose proof (nat_ascii_bounded c). lia.
Qed.

Lemma lower_char_table :
  forallb (fun c =>
    forallb (fun l =>
      implb (small_ascii l)
            (Bool.eqb (Ascii.eqb (lower_char c) l) (same_letter c l)))
      all_chars) all_chars = true.
Proof. vm_compute. reflexivity. Qed.

(** Which characters [lower] sends to an ASCII character that is no
    capital. *)
Lemma lower_char_small c l :
  small_ascii l = true -> Ascii.eqb (lower_char c) l = same_letter c l.
Proof.
  intros S. pose proof lower_char_table as T.
  rewrite forallb_forall in T. specialize (T c (in_all_chars c)).
  rewrite forallb_forall in T. specialize (T l (in_all_chars l)).
  rewrite S in T. simpl in T. now apply eqb_prop in T.
Qed.

Lemma lower_name : forall name file,
  forallb small_ascii name = true ->
  str_eqb (lower file) name = same_name file name.
Proof.
  induction name as [|l name IH]; intros [|c file] S; try reflexivity.
  simpl in S. apply andb_true_iff in S. destruct S as [S1 S2].
  cbn [lower map str_eqb same_name].
  rewrite (@lower_char_small c l S1). f_equal. now apply IH.
Qed.

Lemma lower_changelog file :
  str_eqb (lower file) (lit "changelog.md") = wanted file.
Proof. apply lower_name. reflexivity. Qed.

(** A wanted name does not start with the separator, so [path_join]
    appends it. *)
Lemma wanted_start file :
  wanted file = true -> Py.startswith [Os.sep] file = false.
Proof.
  destruct file as [|c file]; [discriminate|].
  unfold wanted.
  change (lit "changelog.md") with ("c"%char :: lit "hangelog.md").
  cbn [same_name]. intros H. apply andb_true_iff in H. destruct H as [H _].
  cbn [Py.startswith].
  destruct (Ascii.eqb_spec Os.sep c) as [<-|]; [|reflexivity].
  discriminate.
Qed.

Lemma endswith_sep_spec root :
  Os.endswith_sep root = true <-> exists r, root = r ++ [Os.sep].
Proof.
  unfold Os.endswith_sep. split.
  - destruct (rev root) as [|c l] eqn:E; [discriminate|]. intros H.
    apply Ascii.eqb_eq in H. subst c. exists (rev l).
    now rewrite <- (rev_involutive root), E.
  - intros [r ->]. rewrite rev_app_distr. apply Ascii.eqb_refl.
Qed.

(** [path_join] puts a separator before a wanted name unless the path is
    empty or ends with one. *)
Lemma join_wanted root file :
  wanted file = true ->
  ((root = [] \/ exists r, root = r ++ [Os.sep]) /\
   Os.path_join root file = root ++ file) \/
  (root <> [] /\ (forall r, root <> r ++ [Os.sep]) /\
   Os.path_join root file = root ++ Os.sep :: file).
Proof.
  intros W. unfold Os.path_join. rewrite (@wanted_start _ W).
  destruct root as [|c root]; [left; auto|].
  destruct (Os.endswith_sep (c :: root)) eqn:E.
  - left. split; [right; now apply endswith_sep_spec|reflexivity].
  - right. split; [discriminate|]. split; [|reflexivity].
    intros r Er.
    assert (T : Os.endswith_sep (c :: root) = true)
      by (apply endswith_sep_spec; eauto).
    rewrite E in T. discriminate.
Qed.

Lemma find_in_files_cons root file files :
  find_in_files root (file :: files)
  = if wanted file then Some (Os.path_join root file)
    else find_in_files root files.
Proof. cbn [find_in_files]. now rewrite lower_changelog. Qed.

Lemma find_in_files_spec root : forall files,
  match find_in_files root files with
  | None => unwanted files = true
  | Some path =>
      exists pre file post,
        files = pre ++ file :: post /\ unwanted pre = true /\
        wanted file = true /\ path = Os.path_join root file
  end.
Proof.
  induction files as [|file files IH]; [reflexivity|].
  rewrite find_in_files_cons. destruct (wanted file) eqn:W.
  - exists [], file, files. auto.
  - destruct (find_in_files root files) as [path|].
    + destruct IH as (pre & f & post & -> & U & Wf & ->).
      exists (file :: pre), f, post. repeat split; auto.
      unfold unwanted. cbn [forallb]. now rewrite W.
    + unfold unwanted. cbn [forallb]. now rewrite W.
Qed.

Lemma find_in_walk_spec : forall triples,
  match find_in_walk triples with
  | None => no_match triples = true
  | Some path =>
      exists before root dirs files after pre file post,
        triples = before ++ (root, dirs, files) :: after /\
        no_match before = true /\
        files = pre ++ file :: post /\ unwanted pre = true /\
        wanted file = true /\ path = Os.path_join root file
  end.
Proof.
  induction triples as [|[[root dirs] files] triples IH]; [reflexivity|].
  cbn [find_in_walk]. pose proof (find_in_files_spec root files) as F.
  destruct (find_in_files root files) as [path|].
  - destruct F as (pre & f & post & -> & U & W & ->).
    exists [], root, dirs, (pre ++ f :: post), triples, pre, f, post.
    repeat split; auto.
  - destruct (find_in_walk triples) as [path|].
    + destruct IH as (before & r & d & fs & after & pre & f & post &
                      -> & N & -> & U & W & ->).
      exists ((root, dirs, files) :: before), r, d, (pre ++ f :: post),
             after, pre, f, post.
      repeat split; auto. unfold no_match. cbn [forallb snd].
      now rewrite F.
    + unfold no_match. cbn [forallb snd]. now rewrite F.
Qed.

End FileFacts.

Import FileFacts.

Module SearchFacts.

(** [findall] returns nothing only when the pattern matches nowhere. *)
Lemma findall_none r : forall s,
  findall_from r 0 s = [] ->
  forall pre t, s = pre ++ t -> rmatch r t = None.
Proof.
  induction s as [|c s IH]; intros H pre t E.
  - destruct pre; [|discriminate]. simpl in E. subst t.
    simpl in H. now destruct (rmatch r []).
  - cbn [findall_from] in H.
    destruct (rmatch r (c :: s)) eqn:M; [discriminate|].
    destruct pre as [|x pre]; simpl in E.
    + now subst t.
    + injection E as _ E. now apply (IH H pre).
Qed.

(** Every tuple [findall] returns comes from a match at some place of the
    text. *)
Lemma in_findall_at r : forall s k cs,
  In cs (findall_from r k s) ->
  exists pre t st, s = pre ++ t /\ rmatch r t = Some st /\ cs = caps st.
Proof.
  induction s as [|c s IH]; intros k cs H.
  - destruct k; simpl in H; [|destruct H].
    destruct (rmatch r []) as [st|] eqn:E; [|destruct H].
    destruct H as [<-|[]]. exists [], [], st. auto.
  - assert (T : forall k, In cs (findall_from r k s) ->
              exists pre t st,
                c :: s = pre ++ t /\ rmatch r t = Some st /\ cs = caps st).
    { intros k' H'. apply IH in H'.
      destruct H' as (pre & t & st & -> & M & ->).
      exists (c :: pre), t, st. auto. }
    destruct k as [|k]; simpl in H; [|eauto].
    destruct (rmatch r (c :: s)) as [st|] eqn:E; [|eauto].
    destruct H as [<-|H]; [|eauto].
    exists [], (c :: s), st. auto.
Qed.

Lemma digits_no_newline w :
  forallb is_digit w = true -> forallb (accepts CDot) w = true.
Proof.
  induction w as [|c w IH]; [reflexivity|]. simpl.
  rewrite !andb_true_iff. intros [D F]. split; [|now apply IH].
  destruct (Ascii.eqb_spec c newline) as [->|]; [discriminate|reflexivity].
Qed.

End SearchFacts.

Import SearchFacts.

(** ** Facts about [main] *)

Module MainFacts.

(** *** A dated heading is a heading for [parse_changelog] *)

Lemma span_dated_release s s' :
  Span dated_regex s s' -> Span release_regex s s'.
Proof.
  unfold dated_regex, release_regex. cbn [Seq]. intros H.
  apply span_cat_inv in H. destruct H as [s1 [H1 H]].
  apply span_cat_inv in H. destruct H as [s2 [H2 H]].
  apply SpCat with (s1 := s1); [exact H1|].
  apply SpCat with (s1 := s2); [|exact H].
  apply span_group_inv in H2. constructor.
  apply span_three_groups in H2.
  destruct H2 as (a & b & c & -> & Da & Db & Dc).
  apply star_class_span.
  rewrite forallb_app. cbn [forallb]. rewrite forallb_app. cbn [forallb].
  rewrite !digits_no_newline by now apply is_digits_forall.
  reflexivity.
Qed.

Lemma dated_release_found content :
  dated_releases content <> [] -> findall2 release_regex content <> [].
Proof.
  intros D N. unfold dated_releases, findall2 in D.
  destruct (findall_from dated_regex 0 content) as [|cs l] eqn:E;
    [now apply D|].
  assert (I : In cs (findall_from dated_regex 0 content))
    by (rewrite E; now left).
  apply in_findall_at in I. destruct I as (pre & t & st & -> & M & _).
  apply rmatch_in, exec_span in M. cbn [rest] in M.
  apply span_dated_release in M.
  assert (T : matches release_regex t = true)
    by (apply matches_span; eauto).
  unfold findall2 in N. apply map_eq_nil in N.
  pose proof (@findall_none release_regex _ N pre t eq_refl) as R.
  unfold matches in T. rewrite R in T. discriminate.
Qed.

Lemma scan_true_dated content :
  scan_outcome content = Return true -> dated_releases content <> [].
Proof.
  unfold scan_outcome.
  destruct (negb (Py.contains (lit "# Changelog") content)); [discriminate|].
  destruct (negb (Py.contains (lit "## [Unreleased]") content));
    [discriminate|].
  destruct (negb (forallb heading_ok (Py.split [newline] content)));
    [discriminate|].
  destruct (dated_releases content); [discriminate|]. intros _. discriminate.
Qed.

(** *** The loop over the releases *)

Lemma and_then_next A B (a : A) (f : A -> proc B) : and_then (next a) f = f a.
Proof. unfold and_then, next. now destruct (f a). Qed.

Lemma as_dicts_map : forall ds, as_dicts (map PDict ds) = next ds.
Proof.
  induction ds as [|d ds IH]; [reflexivity|].
  cbn [map as_dicts]. rewrite IH. reflexivity.
Qed.

Lemma print_errors_one e :
  print_errors [e] = ([[PStr (lit "- " ++ e)]], Return tt).
Proof. reflexivity. Qed.

Lemma check_versions_release content allowed v d rest :
  labels_allowed (document_sections content) allowed = true ->
  verify_date d = true ->
  check_versions (release_dict content (v, d) :: rest) allowed
  = if verify_semver v
    then let (out, e) := check_versions rest allowed in
         ([PStr (is_valid v)] :: out, e)
    else ([[PStr (errors_found v)]; [PStr (lit "- " ++ semver_message v)]],
          Stop (Exit 1)).
Proof.
  intros L D. cbn [check_versions].
  change (getitem (release_dict content (v, d)) (lit "version"))
    with (ret (PStr v)).
  change (getitem (release_dict content (v, d)) (lit "date"))
    with (ret (PStr d)).
  change (getitem (release_dict content (v, d)) (lit "sections"))
    with (ret (PList (map PDict (document_sections content)))).
  change (lift (ret (PStr v))) with (next (PStr v)).
  change (lift (ret (PStr d))) with (next (PStr d)).
  change (lift (ret (PList (map PDict (document_sections content)))))
    with (next (PList (map PDict (document_sections content)))).
  rewrite !and_then_next. cbn [as_str]. rewrite !and_then_next.
  cbn [as_sections]. rewrite as_dicts_map, and_then_next.
  rewrite (@verify_version_after _ allowed [] true)
    by (now apply verify_sections_allowed).
  cbn [version date _version _date]. rewrite D.
  destruct (verify_semver v).
  - cbn [app lift]. fold (@next (list str) []). rewrite and_then_next.
    cbn [print lift and_then].
    now destruct (check_versions rest allowed).
  - reflexivity.
Qed.

Lemma check_versions_report content allowed :
  labels_allowed (document_sections content) allowed = true ->
  forall found,
    Forall (fun vd => verify_date (snd vd) = true) found ->
    check_versions (map (release_dict content) found) allowed
    = report (map fst found).
Proof.
  intros L. induction found as [|[v d] found IH]; intros F; [reflexivity|].
  inversion F as [|x l D F']. subst. cbn [map fst].
  rewrite (@check_versions_release content allowed v d _ L D). cbn [report].
  now rewrite IH.
Qed.

Lemma release_dates_verified content :
  Forall (fun vd => verify_date (snd vd) = true)
         (findall2 release_regex content).
Proof.
  apply Forall_forall. intros [v d] I.
  exact (date_shape_verify_date (@release_date_shape _ _ _ I)).
Qed.

(** *** [main] *)

Lemma main_read args w path content :
  chosen_file args w = Some path -> Os.read w path = Some content ->
  main args w = main_on content.
Proof.
  intros C R. unfold main, chosen_file in *.
  assert (E : (if auto args
               then match find_changelog_file w with
                    | None =>
                        lift (print [PStr (lit "No changelog.md file found in the directory or its subdirectories.")]) ~;;
                        exit 1
                    | Some changelog_file => next changelog_file
                    end
               else match file args with
                    | None =>
                        lift (print [PStr (lit "Please provide the path to the changelog file using the --file argument or use --auto to automatically find the file.")]) ~;;
                        exit 1
                    | Some changelog_file => next changelog_file
                    end) = next path).
  { destruct (auto args); rewrite C; reflexivity. }
  rewrite E, and_then_next. unfold open_read. rewrite R, and_then_next.
  unfold main_on. fold allowed_labels.
  destruct (scan_closed_form content) as [SR SP].
  destruct (verify_changelog_format content) as [out [[|]|e]] eqn:V;
    [|reflexivity|reflexivity].
  unfold result, printed in SR, SP. cbn [fst snd] in SR, SP.
  rewrite <- SR in SP. destruct out; [|discriminate].
  cbn [lift and_then negb app]. rewrite and_then_next.
  destruct (parse_changelog_closed content allowed_labels) as [PR PP].
  pose proof (@dated_release_found content (@scan_true_dated content (eq_sym SR))) as NE.
  destruct (parse_changelog content allowed_labels) as [pout pr] eqn:P.
  unfold result, printed in PR, PP. cbn [fst snd] in PR, PP. subst pr.
  unfold printed. cbn [fst lift and_then].
  destruct (found_labels_allowed content allowed_labels) eqn:A.
  - destruct (findall2 release_regex content) as [|vd found] eqn:F;
      [now destruct NE|].
    destruct pout; [|discriminate]. cbn [map app].
    change (release_dict content vd :: map (release_dict content) found)
      with (map (release_dict content) (vd :: found)).
    rewrite <- F.
    rewrite and_then_next.
    rewrite check_versions_report.
    + rewrite F. cbn [map]. now destruct (report (fst vd :: map fst found)).
    + now rewrite document_sections_labels.
    + apply release_dates_verified.
  - reflexivity.
Qed.

Lemma main_no_file args w :
  chosen_file args w = None ->
  main args w = ([[PStr (no_file_message args)]], Stop (Exit 1)).
Proof.
  unfold chosen_file, main, no_file_message.
  destruct (auto args); intros ->; reflexivity.
Qed.

Lemma main_open_error args w path :
  chosen_file args w = Some path -> Os.read w path = None ->
  main args w = ([], Stop OpenError).
Proof.
  unfold chosen_file, main. intros C R.
  destruct (auto args); rewrite C; rewrite and_then_next;
    unfold open_read; rewrite R; reflexivity.
Qed.

(** *** The report *)

Lemma report_next : forall versions out,
  report versions = (out, Next tt) ->
  forallb verify_semver versions = true /\
  out = map (fun v => [PStr (is_valid v)]) versions.
Proof.
  induction versions as [|v versions IH]; intros out H.
  - injection H as <-. auto.
  - cbn [report] in H. destruct (verify_semver v) eqn:S; [|discriminate].
    destruct (report versions) as [out' e] eqn:R.
    injection H as <- ->. destruct (IH _ eq_refl) as [F ->].
    cbn [forallb map]. rewrite S, F. auto.
Qed.

Lemma report_all_valid : forall versions,
  forallb verify_semver versions = true ->
  report versions = (map (fun v => [PStr (is_valid v)]) versions, Next tt).
Proof.
  induction versions as [|v versions IH]; intros F; [reflexivity|].
  cbn [forallb] in F. apply andb_true_iff in F. destruct F as [S F].
  cbn [report map]. now rewrite S, (IH F).
Qed.

Lemma report_stop : forall versions out e,
  report versions = (out, Stop e) ->
  e = Exit 1 /\
  exists good bad rest,
    versions = good ++ bad :: rest /\
    forallb verify_semver good = true /\ verify_semver bad = false /\
    out = map (fun v => [PStr (is_valid v)]) good
          ++ [[PStr (errors_found bad)];
              [PStr (lit "- " ++ semver_message bad)]].
Proof.
  induction versions as [|v versions IH]; intros out e H; [discriminate|].
  cbn [report] in H. destruct (verify_semver v) eqn:S.
  - destruct (report versions) as [out' e'] eqn:R.
    injection H as <- ->.
    destruct (IH _ _ eq_refl) as (-> & good & bad & rest & -> & G & B & ->).
    split; [reflexivity|]. exists (v :: good), bad, rest.
    cbn [forallb map app]. rewrite S. auto.
  - injection H as <- <-. split; [reflexivity|].
    exists [], v, versions. auto.
Qed.

End MainFacts.

Import MainFacts.

Module RunFacts.

Lemma main_cases args w :
  (chosen_file args w = None /\
   main args w = ([[PStr (no_file_message args)]], Stop (Exit 1))) \/
  (exists path, chosen_file args w = Some path /\ Os.read w path = None /\
     main args w = ([], Stop OpenError)) \/
  (exists path content,
     chosen_file args w = Some path /\ Os.read w path = Some content /\
     main args w = main_on content).
Proof.
  destruct (chosen_file args w) as [path|] eqn:C.
  - destruct (Os.read w path) as [content|] eqn:R.
    + right. right. exists path, content. repeat split; auto.
      now apply main_read with (path := path).
    + right. left. exists path. repeat split; auto.
      now apply (@main_open_error args w path).
  - left. split; [reflexivity|]. now apply main_no_file.
Qed.

Lemma scan_raises_value_error content out e :
  verify_changelog_format content = (out, Raise e) -> e = ValueError.
Proof.
  intros V. pose proof (proj1 (scan_closed_form content)) as R.
  rewrite V in R. unfold result in R. cbn [snd] in R.
  unfold scan_outcome in R.
  destruct (negb (Py.contains (lit "# Changelog") content));
    [discriminate|].
  destruct (negb (Py.contains (lit "## [Unreleased]") content));
    [discriminate|].
  destruct (negb (forallb heading_ok (Py.split [newline] content)));
    [discriminate|].
  destruct (Nat.ltb (length (dated_releases content)) 2); [discriminate|].
  symmetry in R. now apply order_outcome_raise in R.
Qed.

Lemma scan_true_prints_nothing content out :
  verify_changelog_format content = (out, Return true) -> out = [].
Proof.
  intros V. destruct (scan_closed_form content) as [R P].
  rewrite V in R, P. unfold result, printed in R, P. cbn [fst snd] in R, P.
  rewrite <- R in P. now destruct out.
Qed.

(** [main_on] ends in one of four ways. *)
Lemma main_on_ends content :
  snd (main_on content) = Next tt \/
  snd (main_on content) = Stop (Exit 1) \/
  snd (main_on content) = Stop (Uncaught ValueError).
Proof.
  unfold main_on.
  destruct (verify_changelog_format content) as [out [[|]|e]] eqn:V.
  - destruct (found_labels_allowed content allowed_labels); [|now auto].
    destruct (report (map fst (findall2 release_regex content)))
      as [out' [[]|e]] eqn:R; [now auto|].
    apply report_stop in R. destruct R as [-> _]. auto.
  - auto.
  - apply scan_raises_value_error in V. subst e. auto.
Qed.

Lemma main_on_next content :
  snd (main_on content) = Next tt <->
  result (verify_changelog_format content) = Return true /\
  found_labels_allowed content allowed_labels = true /\
  forallb verify_semver (map fst (findall2 release_regex content)) = true.
Proof.
  unfold main_on, result.
  destruct (verify_changelog_format content) as [out [[|]|e]] eqn:V;
    cbn [snd]; try (split; [discriminate|intros [? _]; discriminate]).
  destruct (found_labels_allowed content allowed_labels);
    [|split; [discriminate|intros (_ & ? & _); discriminate]].
  destruct (report (map fst (findall2 release_regex content)))
    as [out' e] eqn:R. cbn [snd]. split.
  - intros ->. apply report_next in R. tauto.
  - intros (_ & _ & F). rewrite (@report_all_valid _ F) in R.
    now injection R as _ <-.
Qed.

Lemma main_on_output content :
  snd (main_on content) = Next tt ->
  fst (main_on content)
  = map (fun v => [PStr (is_valid v)])
        (map fst (findall2 release_regex content)).
Proof.
  intros H. pose proof H as H'. apply main_on_next in H'.
  destruct H' as (S & A & F). revert H. unfold main_on, result in *.
  destruct (verify_changelog_format content) as [out r] eqn:V.
  cbn [snd] in S. subst r. rewrite A, (@report_all_valid _ F).
  rewrite (@scan_true_prints_nothing content out V). reflexivity.
Qed.

(** What [main_on] has printed when it calls [exit]. *)
Lemma main_on_exit content status :
  snd (main_on content) = Stop (Exit status) ->
  (result (verify_changelog_format content) = Return false /\
   fst (main_on content)
   = printed (verify_changelog_format content)
     ++ [[PStr (lit "Changelog format is invalid.")]]) \/
  (result (verify_changelog_format content) = Return true /\
   found_labels_allowed content allowed_labels = false /\
   fst (main_on content)
   = printed (parse_changelog content allowed_labels)
     ++ [[PStr (lit "Issue with changelog parsing")]]) \/
  (result (verify_changelog_format content) = Return true /\
   exists good bad rest,
     map fst (findall2 release_regex content) = good ++ bad :: rest /\
     forallb verify_semver good = true /\ verify_semver bad = false /\
     fst (main_on content)
     = map (fun v => [PStr (is_valid v)]) good
       ++ [[PStr (errors_found bad)];
           [PStr (lit "- " ++ semver_message bad)]]).
Proof.
  unfold main_on, result, printed.
  destruct (verify_changelog_format content) as [out [[|]|e]] eqn:V;
    cbn [snd fst]; [| |discriminate].
  - rewrite (@scan_true_prints_nothing content out V). cbn [app].
    destruct (found_labels_allowed content allowed_labels).
    + destruct (report (map fst (findall2 release_regex content)))
        as [out' [[]|e]] eqn:R; [discriminate|].
      intros _. apply report_stop in R.
      destruct R as (_ & good & bad & rest & E & G & B & ->).
      right. right. split; [reflexivity|].
      exists good, bad, rest. auto.
    + intros _. right. left. auto.
  - intros _. left. auto.
Qed.

Lemma main_exit_status args w status :
  snd (main args w) = Stop (Exit status) -> status = 1.
Proof.
  intros H.
  destruct (main_cases args w) as [[C M]|[(path & C & R & M)|
                                   (path & content & C & R & M)]];
    rewrite M in H.
  - now injection H as <-.
  - discriminate.
  - destruct (main_on_ends content) as [E|[E|E]]; rewrite E in H;
      try discriminate. now injection H as <-.
Qed.

(** [main] ends in one of four ways. *)
Lemma main_ends_four args w :
  snd (main args w) = Next tt \/
  snd (main args w) = Stop (Exit 1) \/
  snd (main args w) = Stop OpenError \/
  snd (main args w) = Stop (Uncaught ValueError).
Proof.
  destruct (main_cases args w) as [[C M]|[(path & C & R & M)|
                                   (path & content & C & R & M)]];
    rewrite M; auto.
  destruct (main_on_ends content) as [H|[H|H]]; auto.
Qed.

Lemma main_on_uncaught content e :
  snd (main_on content) = Stop (Uncaught e) <->
  result (verify_changelog_format content) = Raise e.
Proof.
  unfold main_on, result.
  destruct (verify_changelog_format content) as [out [[|]|e']]; cbn [snd].
  - split; [|discriminate].
    destruct (found_labels_allowed content allowed_labels);
      [|discriminate].
    destruct (report (map fst (findall2 release_regex content)))
      as [out' [[]|e']] eqn:Rp; [discriminate|].
    apply report_stop in Rp. destruct Rp as [-> _]. discriminate.
  - split; discriminate.
  - split; intros E; now injection E as ->.
Qed.

(** An exception of the program leaves [main] exactly when the scan
    raises it on the text read. *)
Lemma main_uncaught args w e :
  snd (main args w) = Stop (Uncaught e) <->
  exists path content,
    chosen_file args w = Some path /\ Os.read w path = Some content /\
    result (verify_changelog_format content) = Raise e.
Proof.
  destruct (main_cases args w) as [[C M]|[(path & C & R & M)|
                                   (path & content & C & R & M)]];
    rewrite M.
  - split; [discriminate|].
    intros (p & c & C' & _). rewrite C in C'. discriminate.
  - split; [discriminate|].
    intros (p & c & C' & R' & _). rewrite C in C'. injection C' as <-.
    rewrite R in R'. discriminate.
  - rewrite main_on_uncaught. split.
    + intros H. exists path, content. auto.
    + intros (p & c & C' & R' & S). rewrite C in C'. injection C' as <-.
      rewrite R in R'. injection R' as <-. exact S.
Qed.

(** What [main] has printed when it calls [exit]. *)
Lemma main_exit_cases args w status :
  snd (main args w) = Stop (Exit status) ->
  (chosen_file args w = None /\
   fst (main args w) = [[PStr (no_file_message args)]]) \/
  (exists path content,
     chosen_file args w = Some path /\ Os.read w path = Some content /\
     ((result (verify_changelog_format content) = Return false /\
       fst (main args w)
       = printed (verify_changelog_format content)
         ++ [[PStr (lit "Changelog format is invalid.")]]) \/
      (result (verify_changelog_format content) = Return true /\
       found_labels_allowed content allowed_labels = false /\
       fst (main args w)
       = printed (parse_changelog content allowed_labels)
         ++ [[PStr (lit "Issue with changelog parsing")]]) \/
      (result (verify_changelog_format content) = Return true /\
       exists good bad rest,
         map fst (findall2 release_regex content) = good ++ bad :: rest /\
         forallb verify_semver good = true /\ verify_semver bad = false /\
         fst (main args w)
         = map (fun v => [PStr (is_valid v)]) good
           ++ [[PStr (errors_found bad)];
               [PStr (lit "- " ++ semver_message bad)]]))).
Proof.
  intros H.
  destruct (main_cases args w) as [[C M]|[(path & C & R & M)|
                                   (path & content & C & R & M)]].
  - left. now rewrite M.
  - rewrite M in H. discriminate.
  - right. exists path, content. rewrite M in *.
    apply main_on_exit in H. auto.
Qed.

End RunFacts.

Import RunFacts.

(** ** Properties of [find_changelog_file] and [main] *)

(** *** [main] and [find_changelog_file] on a small repository *)

Example main_auto_on_repository :
  find_changelog_file repository = Some (lit "/repo/ChangeLog.MD") /\
  main with_auto repository
  = ([[PStr (lit "Version 2.0.0 is valid.")];
      [PStr (lit "Version 1.0.0 is valid.")]], Next tt).
Proof. split; vm_compute; reflexivity. Qed.

Example main_on_leading_zero :
  main with_old_file repository
  = ([[PStr (lit "Version 1.0.0 is valid.")];
      [PStr (lit "Errors found in version 01.0.0:")];
      [PStr (lit "- Version 01.0.0 is not a valid semantic version.")]],
     Stop (Exit 1)).
Proof. vm_compute. reflexivity. Qed.

Example main_without_arguments :
  main (Args None false) repository
  = ([[PStr (lit "Please provide the path to the changelog file using the --file argument or use --auto to automatically find the file.")]],
     Stop (Exit 1)).
Proof. reflexivity. Qed.

Example main_missing_file :
  main (Args (Some (lit "CHANGELOG.md")) false) repository
  = ([], Stop OpenError).
Proof. reflexivity. Qed.

(** X12. [find_changelog_file] returns [None] exactly when no file name
    that [os.walk] yields is [changelog.md] up to the case of its
    letters. Otherwise it returns the path of the first such name, in the
    order of the walk and of the files of a directory: the directory's
    path, then a separator exactly when that path is not empty and does
    not end with one, then the name as it is spelt. File names are of code
    points below 256. *)
Theorem find_changelog_file_first_match w :
  match find_changelog_file w with
  | None => no_match (Os.walk_top (Os.getcwd w) (Os.below w)) = true
  | Some path =>
      exists before root dirs files after pre file post,
        Os.walk_top (Os.getcwd w) (Os.below w)
        = before ++ (root, dirs, files) :: after /\
        no_match before = true /\
        files = pre ++ file :: post /\ unwanted pre = true /\
        wanted file = true /\
        (((root = [] \/ exists r, root = r ++ [Os.sep]) /\
          path = root ++ file) \/
         (root <> [] /\ (forall r, root <> r ++ [Os.sep]) /\
          path = root ++ Os.sep :: file))
  end.
Proof.
  unfold find_changelog_file.
  pose proof (find_in_walk_spec (Os.walk_top (Os.getcwd w) (Os.below w)))
    as F.
  destruct (find_in_walk (Os.walk_top (Os.getcwd w) (Os.below w)))
    as [path|]; [|exact F].
  destruct F as (before & root & dirs & files & after & pre & f & post &
                 E & N & -> & U & W & ->).
  exists before, root, dirs, (pre ++ f :: post), after, pre, f, post.
  repeat split; auto. now apply join_wanted.
Qed.

(** X13. A changelog in the working directory itself is found before any
    in a directory below it: [find_changelog_file] returns the first
    matching name of the working directory, whatever the directories below
    hold. *)
Theorem working_directory_comes_first w dirs files :
  Os.below w = Some (Os.Dir dirs files) ->
  unwanted files = false ->
  exists pre file post,
    files = pre ++ file :: post /\ unwanted pre = true /\
    wanted file = true /\
    find_changelog_file w = Some (Os.path_join (Os.getcwd w) file).
Proof.
  intros B U. unfold find_changelog_file. rewrite B.
  cbn [Os.walk_top Os.walk find_in_walk].
  pose proof (find_in_files_spec (Os.getcwd w) files) as F.
  destruct (find_in_files (Os.getcwd w) files) as [path|].
  - destruct F as (pre & f & post & -> & P & W & ->).
    exists pre, f, post. auto.
  - rewrite F in U. discriminate.
Qed.

Lemma working_directory_comes_first_witness :
  exists pre file post,
    [lit "README.md"; lit "ChangeLog.MD"] = pre ++ file :: post /\
    unwanted pre = true /\ wanted file = true /\
    find_changelog_file repository
    = Some (Os.path_join (Os.getcwd repository) file).
Proof.
  apply (@working_directory_comes_first repository
           [(lit "docs", Some (Os.Dir [] [lit "changelog.md"]))]
           [lit "README.md"; lit "ChangeLog.MD"]).
  - reflexivity.
  - vm_compute. reflexivity.
Defined.

(** X14. [main()] ends in one of these ways: it returns; [parse_args]
    leaves with status 0 on [-h] or with status 2 on a command line it
    refuses; [main] calls [exit] with status 1; [open] or [read] raises;
    or the [ValueError] of the scan goes uncaught. No [KeyError] leaves
    it: the records it hands to [verify_version] have their keys. The
    [ValueError] comes exactly when [parse_args] has returned and the scan
    raises on the text read. *)
Theorem main_ends p w :
  (snd (script p w) = Next tt \/
   snd (script p w) = Stop (Exit 0) \/
   snd (script p w) = Stop (Exit 1) \/
   snd (script p w) = Stop (Exit 2) \/
   snd (script p w) = Stop OpenError \/
   snd (script p w) = Stop (Uncaught ValueError)) /\
  (snd (script p w) = Stop (Exit 0) <-> p = Help) /\
  (snd (script p w) = Stop (Exit 2) <-> p = Refused) /\
  (forall e, snd (script p w) = Stop (Uncaught e) <->
     exists args path content,
       p = Parsed args /\
       chosen_file args w = Some path /\ Os.read w path = Some content /\
       result (verify_changelog_format content) = Raise e).
Proof.
  destruct p as [args| |]; cbn [script exit snd].
  - split; [|split; [|split]].
    + destruct (main_ends_four args w) as [H|[H|[H|H]]]; auto 10.
    + split; [|discriminate]. intros H.
      apply main_exit_status in H. discriminate.
    + split; [|discriminate]. intros H.
      apply main_exit_status in H. discriminate.
    + intros e. rewrite main_uncaught. split.
      * intros (path & content & H). exists args, path, content. auto.
      * intros (a & path & content & E & H). injection E as <-.
        exists path, content. exact H.
  - split; [auto|]. split; [tauto|]. split.
    + split; discriminate.
    + intros e. split; [discriminate|].
      intros (a & path & content & E & _). discriminate.
  - split; [auto 10|]. split; [split; discriminate|]. split; [tauto|].
    intros e. split; [discriminate|].
    intros (a & path & content & E & _). discriminate.
Qed.

(** X15. [main] returns, without [exit], exactly when the chosen file can
    be read, the scan accepts its text, every label the section scan finds
    is allowed and every version that [parse_changelog] finds passes
    [verify_semver]. *)
Theorem main_returns_exactly args w :
  snd (main args w) = Next tt <->
  exists path content,
    chosen_file args w = Some path /\ Os.read w path = Some content /\
    result (verify_changelog_format content) = Return true /\
    found_labels_allowed content allowed_labels = true /\
    forallb verify_semver (map fst (findall2 release_regex content)) = true.
Proof.
  destruct (main_cases args w) as [[C M]|[(path & C & R & M)|
                                   (path & content & C & R & M)]].
  - rewrite M. split; [discriminate|].
    intros (p & c & C' & _). rewrite C in C'. discriminate.
  - rewrite M. split; [discriminate|].
    intros (p & c & C' & R' & _). rewrite C in C'. injection C' as <-.
    rewrite R in R'. discriminate.
  - rewrite M, main_on_next. split.
    + intros H. exists path, content. tauto.
    + intros (p & c & C' & R' & H). rewrite C in C'. injection C' as <-.
      rewrite R in R'. injection R' as <-. exact H.
Qed.

(** X16. When [main] returns, it has printed one line for each heading
    [parse_changelog] finds in the text read, [Version v is valid.] with
    the version of the heading, in the order of the document, and nothing
    else. *)
Theorem main_prints_valid_lines args w path content :
  chosen_file args w = Some path -> Os.read w path = Some content ->
  snd (main args w) = Next tt ->
  fst (main args w)
  = map (fun v => [PStr (lit "Version " ++ v ++ lit " is valid.")])
        (map fst (findall2 release_regex content)).
Proof.
  intros C R. rewrite (@main_read args w path content C R).
  apply main_on_output.
Qed.

Lemma main_prints_valid_lines_witness :
  fst (main with_auto repository)
  = map (fun v => [PStr (lit "Version " ++ v ++ lit " is valid.")])
        (map fst (findall2 release_regex well_ordered_document)).
Proof.
  apply (@main_prints_valid_lines with_auto repository
           (lit "/repo/ChangeLog.MD") well_ordered_document);
    vm_compute; reflexivity.
Defined.

(** X17. When [main()] ends by an exit, either [parse_args] has left
    with status 0 on [-h] or with status 2 on a command line it refuses,
    or [parse_args] has returned, [main] has called [exit] with status 1,
    and what it has printed tells why. Either no file is chosen and it has
    printed the one line that says so; or the scan returned false and it
    has printed the line of the scan and [Changelog format is invalid.];
    or a label found is not allowed and it has printed what
    [parse_changelog] printed and [Issue with changelog parsing]; or a
    version fails [verify_semver] and it has printed [Version v is valid.]
    for the versions before the first such one, then [Errors found in
    version v:] and the version message alone. The versions after the
    first failing one are not looked at, and the date message and the
    section message of [verify_version] are never printed. *)
Theorem main_exit_reason p w status :
  snd (script p w) = Stop (Exit status) ->
  (p = Help /\ status = 0) \/
  (p = Refused /\ status = 2) \/
  (exists args,
     p = Parsed args /\ status = 1 /\
     ((chosen_file args w = None /\
       fst (main args w) = [[PStr (no_file_message args)]]) \/
      (exists path content,
         chosen_file args w = Some path /\
         Os.read w path = Some content /\
         ((result (verify_changelog_format content) = Return false /\
           fst (main args w)
           = printed (verify_changelog_format content)
             ++ [[PStr (lit "Changelog format is invalid.")]]) \/
          (result (verify_changelog_format content) = Return true /\
           found_labels_allowed content allowed_labels = false /\
           fst (main args w)
           = printed (parse_changelog content allowed_labels)
             ++ [[PStr (lit "Issue with changelog parsing")]]) \/
          (result (verify_changelog_format content) = Return true /\
           exists good bad rest,
             map fst (findall2 release_regex content)
             = good ++ bad :: rest /\
             forallb verify_semver good = true /\
             verify_semver bad = false /\
             fst (main args w)
             = map (fun v => [PStr (is_valid v)]) good
               ++ [[PStr (errors_found bad)];
                   [PStr (lit "- " ++ semver_message bad)]]))))).
Proof.
  destruct p as [args| |]; cbn [script exit snd]; intros H.
  - right. right. exists args. split; [reflexivity|].
    split; [now apply (@main_exit_status args w)|].
    now apply main_exit_cases with (status := status).
  - left. now injection H as <-.
  - right. left. now injection H as <-.
Qed.

Lemma main_exit_reason_witness :
  (Parsed with_old_file = Help /\ 1 = 0) \/
  (Parsed with_old_file = Refused /\ 1 = 2) \/
  (exists args,
     Parsed with_old_file = Parsed args /\ 1 = 1 /\
     ((chosen_file args repository = None /\
       fst (main args repository) = [[PStr (no_file_message args)]]) \/
      (exists path content,
         chosen_file args repository = Some path /\
         Os.read repository path = Some content /\
         ((result (verify_changelog_format content) = Return false /\
           fst (main args repository)
           = printed (verify_changelog_format content)
             ++ [[PStr (lit "Changelog format is invalid.")]]) \/
          (result (verify_changelog_format content) = Return true /\
           found_labels_allowed content allowed_labels = false /\
           fst (main args repository)
           = printed (parse_changelog content allowed_labels)
             ++ [[PStr (lit "Issue with changelog parsing")]]) \/
          (result (verify_changelog_format content) = Return true /\
           exists good bad rest,
             map fst (findall2 release_regex content)
             = good ++ bad :: rest /\
             forallb verify_semver good = true /\
             verify_semver bad = false /\
             fst (main args repository)
             = map (fun v => [PStr (is_valid v)]) good
               ++ [[PStr (errors_found bad)];
                   [PStr (lit "- " ++ semver_message bad)]]))))).
Proof.
  apply (@main_exit_reason (Parsed with_old_file) repository 1).
  vm_compute. reflexivity.
Defined.

(** X18. A document the scan accepts has a heading for
    [parse_changelog]: on it [parse_changelog] returns the empty list
    exactly when the section scan finds a label that is not allowed. *)
Theorem accepted_document_has_releases content allowed :
  result (verify_changelog_format content) = Return true ->
  findall2 release_regex content <> [] /\
  (result (parse_changelog content allowed) = Return [] <->
   found_labels_allowed content allowed = false).
Proof.
  intros H. rewrite (proj1 (scan_closed_form content)) in H.
  pose proof (@dated_release_found content (@scan_true_dated content H))
    as NE.
  split; [exact NE|].
  rewrite (proj1 (parse_changelog_closed content allowed)).
  destruct (found_labels_allowed content allowed).
  - destruct (findall2 release_regex content); [now destruct NE|].
    split; discriminate.
  - split; reflexivity.
Qed.

Lemma accepted_document_has_releases_witness :
  findall2 release_regex well_ordered_document <> [].
Proof.
  apply (proj1 (@accepted_document_has_releases well_ordered_document
                  allowed_labels ltac:(vm_compute; reflexivity))).
Defined.

(** X19. On a version string of code points below 256, where [\d] is
    ['0'] to ['9'], [verify_semver] is what the matcher for any text
    computes, and it accepts exactly the strings that start with a word of
    the semantic-version grammar; ["1.2.3garbage"] is accepted, ["1.2"] is
    rejected, and the first message [verify_version] returns for the
    version ["1.2"] names that version. *)
Theorem verify_semver_accepts_grammar_prefixes :
  (forall s, Wide.verify_semver (Wide.widen s) = verify_semver s) /\
  (forall s, verify_semver s = true <->
             exists w t, s = w ++ t /\ semver_word w) /\
  verify_semver (lit "1.2.3garbage") = true /\
  verify_semver (lit "1.2") = false /\
  (forall d secs allowed, keyed secs ->
     exists out others,
       verify_version (mkVersion (lit "1.2") d secs) allowed
       = (out,
          Return (lit "Version 1.2 is not a valid semantic version."
                  :: others))).
Proof.
  split; [exact verify_semver_widen|].
  split; [exact verify_semver_prefix|].
  split; [vm_compute; reflexivity|].
  split; [vm_compute; reflexivity|].
  intros d secs allowed K.
  destruct (@verify_version_keyed (mkVersion (lit "1.2") d secs) allowed K)
    as [out E].
  exists out. eexists. rewrite E. unfold expected_messages.
  cbn [version _version].
  replace (verify_semver (lit "1.2")) with false by (vm_compute; reflexivity).
  reflexivity.
Qed.

(** The grammar side at work: ["1.2.3garbage"] starts with the word
    ["1.2.3"]. *)
Lemma verify_semver_accepts_grammar_prefixes_witness :
  verify_semver (lit "1.2.3" ++ lit "garbage") = true.
Proof.
  apply (proj1 (proj2 verify_semver_accepts_grammar_prefixes)).
  exists (lit "1.2.3"), (lit "garbage"). split; [reflexivity|].
  apply (@SemverWord (lit "1") (lit "2") (lit "3") [] []);
    try reflexivity; constructor.
Defined.
